(** * Verification of the nomos job execution engine

    A shallow embedding of the parts of the nomos CI service that decide
    parameter substitution, parameter merging and validation, job result
    identifiers, the step state machine, dry runs, process supervision and
    the bash operation. *)

From Stdlib Require Import Ascii.
From Stdlib Require Import DecimalString DecimalN.
From stdpp Require Import base list gmap strings.

Local Open Scope stdpp_scope.
Local Arguments String.append : simpl nomatch.

(** ** Rust [Result] *)

Inductive result (T E : Type) : Type :=
| Ok (t : T)
| Err (e : E).
Arguments Ok {T E} t.
Arguments Err {T E} e.

(** ** String primitives over byte strings

    Rust strings are UTF-8 byte sequences and every index the code takes is
    a byte index; the delimiters searched for ([$(], [)], newline) are ASCII,
    so the slices the code takes always fall on character boundaries. *)

Fixpoint str_prefix (p s : string) : bool :=
  match p, s with
  | EmptyString, _ => true
  | String a p', String b s' => Ascii.eqb a b && str_prefix p' s'
  | String _ _, EmptyString => false
  end.

(** [str::find] with a string pattern: byte index of the first match. *)
Fixpoint find_str (p s : string) : option nat :=
  if str_prefix p s then Some 0
  else match s with
       | EmptyString => None
       | String _ s' => S <$> find_str p s'
       end.

(** [str::find] with a [char] pattern. *)
Fixpoint find_char (c : ascii) (s : string) : option nat :=
  match s with
  | EmptyString => None
  | String a s' => if Ascii.eqb a c then Some 0 else S <$> find_char c s'
  end.

Fixpoint str_take (n : nat) (s : string) : string :=
  match n, s with
  | O, _ => EmptyString
  | S n', String a s' => String a (str_take n' s')
  | S _, EmptyString => EmptyString
  end.

Fixpoint str_drop (n : nat) (s : string) : string :=
  match n, s with
  | O, _ => s
  | S n', String _ s' => str_drop n' s'
  | S _, EmptyString => EmptyString
  end.

(** [str::replace]: scans left to right, replaces every non-overlapping
    match of [pat] by [v] and resumes after the match; [skip] counts the
    bytes of the current match still to be passed over.  The patterns used
    by the code are never empty (they start with [$(]). *)
Fixpoint replace_go (pat v : string) (skip : nat) (s : string) : string :=
  match s with
  | EmptyString => EmptyString
  | String c s' =>
      match skip with
      | S k => replace_go pat v k s'
      | O =>
          if str_prefix pat s
          then v +:+ replace_go pat v (String.length pat - 1) s'
          else String c (replace_go pat v 0 s')
      end
  end.

Definition str_replace (pat v s : string) : string := replace_go pat v 0 s.

(** [slice.join(sep)] *)
Fixpoint str_join (sep : string) (l : list string) : string :=
  match l with
  | [] => EmptyString
  | [x] => x
  | x :: l' => x +:+ sep +:+ str_join sep l'
  end.

(** [i64::to_string] and [bool::to_string] *)
Definition i64_to_string (z : Z) : string :=
  NilZero.string_of_int (Z.to_int z).

Definition bool_to_string (b : bool) : string :=
  if b then "true" else "false".

(** ** Parameter values (src/src/script/parameter.rs, with the
    [StringArray] variant that script/utils.rs and script/types/save.rs use) *)

Inductive ScriptParameterType : Type :=
| String_ (s : string)
| Boolean (b : bool)
| Number (n : Z)
| Password (p : string)
| Credential (c : string)
| StringArray (a : list string).

(** A [HashMap<String, ScriptParameterType>] *)
Abbreviation Params := (gmap string ScriptParameterType).

(** ** Parameter substitution (src/src/script/utils.rs) *)

Inductive SubstitutionResult : Type :=
| Single (s : string)
| Multiple (l : list string).

(** The [match param_value] that converts a value to text. *)
Definition value_to_string (v : ScriptParameterType) : string :=
  match v with
  | String_ s => s
  | Credential c => c
  | Password p => p
  | Boolean b => bool_to_string b
  | Number n => i64_to_string n
  | StringArray a => str_join ", " a
  end.

(** The [while let] loop need not terminate (a value may reintroduce its
    own token), so it runs on fuel; one unit is spent per iteration that
    finds a [$(]. *)
Inductive Outcome (A : Type) : Type :=
| Done (a : A)
| OutOfFuel.
Arguments Done {A} a.
Arguments OutOfFuel {A}.

Definition SubstResult := result (option SubstitutionResult) string.

Fixpoint substitute_loop (fuel : nat) (parameters : Params) (optional : bool)
    (result_ : string) : Outcome SubstResult :=
  match find_str "$(" result_ with
  | None => Done (Ok (Some (Single result_)))
  | Some start =>
      match fuel with
      | O => OutOfFuel
      | S fuel' =>
          let remaining := str_drop start result_ in
          match find_char ")" remaining with
          | None => Done (Err "Missing closing bracket ')'")
          | Some end_ =>
              let full_param_ref := str_take (S end_) remaining in
              let param_name := str_take (end_ - 2) (str_drop 2 remaining) in
              let pure := (start =? 0) && (end_ =? String.length remaining - 1) in
              match parameters !! param_name with
              | None =>
                  if optional && pure then Done (Ok None)
                  else Done (Err ("Parameter '" +:+ param_name +:+ "' not found"))
              | Some param_value =>
                  match param_value with
                  | StringArray arr =>
                      if pure then Done (Ok (Some (Multiple arr)))
                      else substitute_loop fuel' parameters optional
                             (str_replace full_param_ref (value_to_string param_value) result_)
                  | _ =>
                      substitute_loop fuel' parameters optional
                        (str_replace full_param_ref (value_to_string param_value) result_)
                  end
              end
          end
      end
  end.

(** [<String as ParameterSubstitution>::substitute_parameters] *)
Definition substitute_parameters (fuel : nat) (self : string) (parameters : Params)
    (optional : bool) : Outcome SubstResult :=
  substitute_loop fuel parameters optional self.

(** The parameter values the loop of [substitute_parameters] writes into
    the text, in order: the [param_value] of each [result.replace] the
    loop performs.  A run that stops (no token left, missing bracket or
    parameter, a whole-template array, no fuel) writes no further value. *)
Fixpoint substituted_values (fuel : nat) (parameters : Params) (optional : bool)
    (result_ : string) : list ScriptParameterType :=
  match find_str "$(" result_ with
  | None => []
  | Some start =>
      match fuel with
      | O => []
      | S fuel' =>
          let remaining := str_drop start result_ in
          match find_char ")" remaining with
          | None => []
          | Some end_ =>
              let full_param_ref := str_take (S end_) remaining in
              let param_name := str_take (end_ - 2) (str_drop 2 remaining) in
              let pure := (start =? 0) && (end_ =? String.length remaining - 1) in
              match parameters !! param_name with
              | None => []
              | Some param_value =>
                  match param_value with
                  | StringArray arr =>
                      if pure then []
                      else param_value :: substituted_values fuel' parameters optional
                             (str_replace full_param_ref (value_to_string param_value) result_)
                  | _ =>
                      param_value :: substituted_values fuel' parameters optional
                        (str_replace full_param_ref (value_to_string param_value) result_)
                  end
              end
          end
      end
  end.

Definition param_token (k : string) : string := "$(" +:+ k +:+ ")".

(** A parameter key that contains no closing bracket: the token [$(k)]
    then ends at its own [)]. *)
Definition no_close (k : string) : bool :=
  match find_char ")" k with None => true | Some _ => false end.

(** ** [str::lines] and the bash operation (src/src/script/types/bash.rs) *)

Definition nl : ascii := Ascii false true false true false false false false.
Definition cr : ascii := Ascii true false true true false false false false.

Definition no_newline (s : string) : bool :=
  match find_char nl s with None => true | Some _ => false end.

(** Drop one trailing carriage return. *)
Fixpoint strip_cr (l : string) : string :=
  match l with
  | EmptyString => EmptyString
  | String c EmptyString => if Ascii.eqb c cr then EmptyString else l
  | String c l' => String c (strip_cr l')
  end.

(** [str::lines]: split at [\n] (dropping a [\r] just before it); a final
    line ending does not start a new, empty line.  [cur] is the line read so
    far. *)
Fixpoint lines_acc (cur : string) (s : string) : list string :=
  match s with
  | EmptyString => match cur with EmptyString => [] | _ => [cur] end
  | String c s' =>
      if Ascii.eqb c nl then strip_cr cur :: lines_acc EmptyString s'
      else lines_acc (cur +:+ String c EmptyString) s'
  end.

Definition rust_lines (s : string) : list string := lines_acc EmptyString s.

Section BashOp.

(** The job result and the process runner are abstracted into a state [St]
    and the effect of [execute_command line] on it. *)
Variable St : Type.
Variable execute_command : string -> St -> result St string.

Inductive BashOutcome : Type :=
| BashDone (r : result St string) (logs : list string)
| BashPanic
| BashOutOfFuel.

(** The [for line in lines] loop; [original_lines[i]] panics when [i] is
    out of bounds. *)
Fixpoint bash_lines (original_lines : list string) (i : nat) (lines : list string)
    (dry_run : bool) (st : St) (logs : list string) : BashOutcome :=
  match lines with
  | [] => BashDone (Ok st) logs
  | line :: rest =>
      match line with
      | EmptyString => bash_lines original_lines (S i) rest dry_run st logs
      | _ =>
          match original_lines !! i with
          | None => BashPanic
          | Some orig =>
              let logs' := logs ++ ["command: " +:+ orig] in
              if dry_run then bash_lines original_lines (S i) rest dry_run st logs'
              else match execute_command line st with
                   | Err e => BashDone (Err e) logs'
                   | Ok st' => bash_lines original_lines (S i) rest dry_run st' logs'
                   end
          end
      end
  end.

(** [<BashScript as ScriptExecutor>::execute] *)
Definition bash_execute (fuel : nat) (code : string) (parameters : Params)
    (dry_run : bool) (st : St) : BashOutcome :=
  match substitute_parameters fuel code parameters false with
  | OutOfFuel => BashOutOfFuel
  | Done (Err e) => BashDone (Err e) []
  | Done (Ok None) => BashDone (Ok st) []
  | Done (Ok (Some (Multiple _))) => BashDone (Err "Code parameter cannot be an array") []
  | Done (Ok (Some (Single replaced_code))) =>
      bash_lines (rust_lines code) 0 (rust_lines replaced_code) dry_run st []
  end.

End BashOp.

Arguments BashDone {St} r logs.
Arguments BashPanic {St}.
Arguments BashOutOfFuel {St}.

(** Number of lines [str::lines] yields, [open] telling whether a line has
    been started. *)
Fixpoint line_count (open : bool) (s : string) : nat :=
  match s with
  | EmptyString => if open then 1 else 0
  | String c s' => if Ascii.eqb c nl then S (line_count false s') else line_count true s'
  end.

(** ** Scripts and jobs (src/src/script/models.rs, src/src/job/mod.rs) *)

Inductive DockerRunArg : Type :=
| DirectArg (arg : string)
| EnvFromCredential (credential_id : string).

Inductive ScriptType : Type :=
| Bash (code : string)
| GitClone (url : string) (credential_id : option string) (branch : option string)
| Sync (directory : string)
| DockerBuild (image : string) (dockerfile : option string)
| DockerStop (container : string)
| DockerRun (image : string) (container : option string) (args : list DockerRunArg).

Record ScriptParameter : Type := {
  sp_name : string;
  sp_description : string;
  sp_required : bool;
  sp_default : option ScriptParameterType;
}.

Record ScriptStep : Type := {
  step_name : string;
  step_values : list ScriptType;
}.

Record Script : Type := {
  script_id : string;
  script_name : string;
  script_parameters : list ScriptParameter;
  script_steps : list ScriptStep;
}.

Record JobParameterDefinition : Type := {
  jp_name : string;
  jp_default : option ScriptParameterType;
}.

Inductive TriggerType : Type :=
| Manual
| Github (branch : string) (events : list string) (secret : string) (url : string).

Record Job : Type := {
  job_id : string;
  job_name : string;
  job_parameters : list JobParameterDefinition;
  job_triggers : list TriggerType;
  job_script_id : string;
  job_read_only : bool;
}.

(** The scripts directory, keyed by script id. *)
Abbreviation ScriptStore := (gmap string Script).

(** [Job::get_script] *)
Definition get_script (job : Job) (script : option Script) (scripts : ScriptStore)
    : result Script string :=
  match script with
  | Some s => Ok s
  | None =>
      match scripts !! job_script_id job with
      | Some s => Ok s
      | None => Err ("Script not found: " +:+ job_script_id job)
      end
  end.

(** [Job::validate_parameters]: the loop pushing missing names. *)
Definition collect_missing (job : Job) (params : list ScriptParameter) : list string :=
  fold_left
    (fun missing_parameters parameter =>
       let is_parameter_defined :=
         existsb (fun p => String.eqb (jp_name p) (sp_name parameter)) (job_parameters job) in
       if negb is_parameter_defined
          && match sp_default parameter with None => true | Some _ => false end
          && sp_required parameter
       then missing_parameters ++ [sp_name parameter]
       else missing_parameters)
    params [].

Definition validate_parameters (job : Job) (script : option Script) (scripts : ScriptStore)
    : result unit string :=
  match get_script job script scripts with
  | Err e => Err e
  | Ok script =>
      match collect_missing job (script_parameters script) with
      | [] => Ok tt
      | missing_parameters =>
          Err ("Missing required parameters: " +:+ str_join ", " missing_parameters)
      end
  end.

(** [Job::resolve_parameter_value] *)
Definition resolve_parameter_value (job : Job) (script_parameter : ScriptParameter)
    (provided_parameters : Params) : result (option ScriptParameterType) string :=
  let job_parameter :=
    List.find (fun p => String.eqb (jp_name p) (sp_name script_parameter)) (job_parameters job) in
  Ok (match job_parameter with
      | Some job_param =>
          match provided_parameters !! jp_name job_param with
          | Some v => Some v
          | None => jp_default job_param
          end
      | None => sp_default script_parameter
      end).

Definition parameter_key (name : string) : string := "parameters." +:+ name.

(** [Job::merged_parameters] *)
Definition merged_parameters (job : Job) (script : option Script) (scripts : ScriptStore)
    (parameters : Params) : result Params string :=
  match get_script job script scripts with
  | Err e => Err e
  | Ok script =>
      fold_left
        (fun acc parameter =>
           match acc with
           | Err e => Err e
           | Ok merged =>
               match resolve_parameter_value job parameter parameters with
               | Err e => Err e
               | Ok (Some value) => Ok (<[parameter_key (sp_name parameter) := value]> merged)
               | Ok None => Ok merged
               end
           end)
        (script_parameters script) (Ok ∅)
  end.

(** The order of precedence as the specification words it: caller value,
    else the Job's default, else the script parameter's default. *)
Definition spec_precedence (job : Job) (sp : ScriptParameter) (provided : Params)
    : option ScriptParameterType :=
  match provided !! sp_name sp with
  | Some v => Some v
  | None =>
      match List.find (fun p => String.eqb (jp_name p) (sp_name sp)) (job_parameters job)
            ≫= jp_default with
      | Some d => Some d
      | None => sp_default sp
      end
  end.

(** ** Job result identifiers ([job/utils.rs])

    The counter file [ids.txt] and the result files
    [<results>/<id>/result.yml] form the state.  A result file either parses
    or does not; the file operations themselves are taken to succeed.
    Arithmetic on [u64] is checked, as in a build with overflow checks: an
    overflow is a panic. *)

Inductive ResultFile : Type :=
| ValidResult
| CorruptResult.

Record IdState : Type := {
  ids_file : string;
  result_files : gmap string ResultFile
}.

Definition u64_max : N := 2 ^ 64 - 1.

(** [u64::to_string] *)
Definition u64_to_string (n : N) : string := NilZero.string_of_uint (N.to_uint n).

(** [char::is_whitespace], restricted to ASCII. *)
Definition is_ws (c : ascii) : bool :=
  match nat_of_ascii c with
  | 32 | 9 | 10 | 11 | 12 | 13 => true
  | _ => false
  end.

Fixpoint trim_start (s : string) : string :=
  match s with
  | EmptyString => EmptyString
  | String c r => if is_ws c then trim_start r else s
  end.

Fixpoint trim_end (s : string) : string :=
  match s with
  | EmptyString => EmptyString
  | String c r =>
      let r' := trim_end r in
      match r' with
      | EmptyString => if is_ws c then EmptyString else String c EmptyString
      | _ => String c r'
      end
  end.

(** [str::trim] *)
Definition trim (s : string) : string := trim_end (trim_start s).

(** [str::parse::<u64>]: an optional [+], then one or more decimal digits,
    the value fitting in 64 bits. *)
Definition parse_u64 (s : string) : option N :=
  let digits := match s with
                | String "+"%char r => r
                | _ => s
                end in
  match NilZero.uint_of_string digits with
  | Some u => let n := N.of_uint u in if (n <=? u64_max)%N then Some n else None
  | None => None
  end.

(** [id + 1] on [u64] *)
Definition u64_succ (n : N) : option N :=
  if (n <? u64_max)%N then Some (n + 1)%N else None.

(** [JobResult::get]: [Ok None] when [result.yml] is absent, an error when
    it does not parse. *)
Definition job_result_get (results : gmap string ResultFile) (id : string)
    : result (option unit) string :=
  match results !! id with
  | None => Ok None
  | Some ValidResult => Ok (Some tt)
  | Some CorruptResult => Err "invalid result.yml"
  end.

Inductive Probe : Type :=
| ProbeFound (n : N)
| ProbeErr (e : string)
| ProbePanic
| ProbeOutOfFuel.

(** [while JobResult::get(&next_id.to_string())?.is_some() { next_id += 1; }] *)
Fixpoint probe (fuel : nat) (results : gmap string ResultFile) (next_id : N) : Probe :=
  match job_result_get results (u64_to_string next_id) with
  | Err e => ProbeErr e
  | Ok None => ProbeFound next_id
  | Ok (Some _) =>
      match fuel with
      | O => ProbeOutOfFuel
      | S fuel' =>
          match u64_succ next_id with
          | Some n => probe fuel' results n
          | None => ProbePanic
          end
      end
  end.

Inductive IdOutcome : Type :=
| IdOk (st : IdState) (id : string)
| IdErr (e : string)
| IdPanic
| IdOutOfFuel.

(** [content.trim().parse::<u64>().unwrap_or(0)] *)
Definition read_counter (st : IdState) : N :=
  match parse_u64 (trim (ids_file st)) with
  | Some n => n
  | None => 0%N
  end.

(** [next_job_result_id]; every round of the probe finds a distinct
    existing result, so [size results + 1] rounds always suffice. *)
Definition next_job_result_id (st : IdState) : IdOutcome :=
  match u64_succ (read_counter st) with
  | None => IdPanic
  | Some next_id =>
      match probe (S (size (result_files st))) (result_files st) next_id with
      | ProbeFound c =>
          IdOk {| ids_file := u64_to_string c; result_files := result_files st |}
               (u64_to_string c)
      | ProbeErr e => IdErr e
      | ProbePanic => IdPanic
      | ProbeOutOfFuel => IdOutOfFuel
      end
  end.

(** ** Running steps and job results ([script/models.rs], [job/models/job_result.rs])

    Timestamps are the values of [Utc::now()], passed in as [now].  The
    logger and [add_log] write outside the results directory and are left
    out. *)

Inductive ScriptStatus : Type :=
| Success
| Failed
| Aborted.

Record RunningScriptStep : Type := {
  rs_name : string;
  rs_values : list ScriptType;
  rs_status : ScriptStatus;
  rs_started_at : option nat;
  rs_finished_at : option nat
}.

(** [impl Default for RunningScriptStep] *)
Definition running_step_default : RunningScriptStep :=
  {| rs_name := ""; rs_values := []; rs_status := Failed;
     rs_started_at := None; rs_finished_at := None |}.

(** [impl From<&ScriptStep> for RunningScriptStep] *)
Definition running_step_from (step : ScriptStep) : RunningScriptStep :=
  {| rs_name := step_name step; rs_values := step_values step;
     rs_status := rs_status running_step_default;
     rs_started_at := rs_started_at running_step_default;
     rs_finished_at := rs_finished_at running_step_default |}.

(** [RunningScriptStep::start] *)
Definition step_start (now : nat) (s : RunningScriptStep) : RunningScriptStep :=
  {| rs_name := rs_name s; rs_values := rs_values s; rs_status := rs_status s;
     rs_started_at := Some now; rs_finished_at := rs_finished_at s |}.

(** [RunningScriptStep::finish] *)
Definition step_finish (status : ScriptStatus) (now : nat) (s : RunningScriptStep)
    : RunningScriptStep :=
  {| rs_name := rs_name s; rs_values := rs_values s; rs_status := status;
     rs_started_at := rs_started_at s; rs_finished_at := Some now |}.

Record JobResult : Type := {
  jr_id : string;
  jr_job_id : string;
  jr_is_success : bool;
  jr_steps : list RunningScriptStep;
  jr_current_step_name : option string;
  jr_started_at : nat;
  jr_updated_at : nat;
  jr_finished_at : option nat;
  jr_dry_run : bool;
  jr_child_process_ids : list nat
}.

Definition with_steps (steps : list RunningScriptStep) (jr : JobResult) : JobResult :=
  {| jr_id := jr_id jr; jr_job_id := jr_job_id jr; jr_is_success := jr_is_success jr;
     jr_steps := steps; jr_current_step_name := jr_current_step_name jr;
     jr_started_at := jr_started_at jr; jr_updated_at := jr_updated_at jr;
     jr_finished_at := jr_finished_at jr; jr_dry_run := jr_dry_run jr;
     jr_child_process_ids := jr_child_process_ids jr |}.

Definition with_current (name : option string) (jr : JobResult) : JobResult :=
  {| jr_id := jr_id jr; jr_job_id := jr_job_id jr; jr_is_success := jr_is_success jr;
     jr_steps := jr_steps jr; jr_current_step_name := name;
     jr_started_at := jr_started_at jr; jr_updated_at := jr_updated_at jr;
     jr_finished_at := jr_finished_at jr; jr_dry_run := jr_dry_run jr;
     jr_child_process_ids := jr_child_process_ids jr |}.

Definition with_updated (now : nat) (jr : JobResult) : JobResult :=
  {| jr_id := jr_id jr; jr_job_id := jr_job_id jr; jr_is_success := jr_is_success jr;
     jr_steps := jr_steps jr; jr_current_step_name := jr_current_step_name jr;
     jr_started_at := jr_started_at jr; jr_updated_at := now;
     jr_finished_at := jr_finished_at jr; jr_dry_run := jr_dry_run jr;
     jr_child_process_ids := jr_child_process_ids jr |}.

Definition with_finished (finished : option nat) (jr : JobResult) : JobResult :=
  {| jr_id := jr_id jr; jr_job_id := jr_job_id jr; jr_is_success := jr_is_success jr;
     jr_steps := jr_steps jr; jr_current_step_name := jr_current_step_name jr;
     jr_started_at := jr_started_at jr; jr_updated_at := jr_updated_at jr;
     jr_finished_at := finished; jr_dry_run := jr_dry_run jr;
     jr_child_process_ids := jr_child_process_ids jr |}.

Definition with_is_success (b : bool) (jr : JobResult) : JobResult :=
  {| jr_id := jr_id jr; jr_job_id := jr_job_id jr; jr_is_success := b;
     jr_steps := jr_steps jr; jr_current_step_name := jr_current_step_name jr;
     jr_started_at := jr_started_at jr; jr_updated_at := jr_updated_at jr;
     jr_finished_at := jr_finished_at jr; jr_dry_run := jr_dry_run jr;
     jr_child_process_ids := jr_child_process_ids jr |}.

Definition with_child_process_ids (ids : list nat) (jr : JobResult) : JobResult :=
  {| jr_id := jr_id jr; jr_job_id := jr_job_id jr; jr_is_success := jr_is_success jr;
     jr_steps := jr_steps jr; jr_current_step_name := jr_current_step_name jr;
     jr_started_at := jr_started_at jr; jr_updated_at := jr_updated_at jr;
     jr_finished_at := jr_finished_at jr; jr_dry_run := jr_dry_run jr;
     jr_child_process_ids := ids |}.

(** [JobResult::new] *)
Definition job_result_new (id job_id : string) (steps : list RunningScriptStep)
    (dry_run : bool) (now : nat) : JobResult :=
  {| jr_id := id; jr_job_id := job_id; jr_is_success := false; jr_steps := steps;
     jr_current_step_name := option_map rs_name (head steps);
     jr_started_at := now; jr_updated_at := now; jr_finished_at := None;
     jr_dry_run := dry_run; jr_child_process_ids := [] |}.

(** [steps.iter().find(|step| step.name == *name)] *)
Definition find_step (name : string) (steps : list RunningScriptStep)
    : option RunningScriptStep :=
  List.find (fun s => String.eqb (rs_name s) name) steps.

(** Mutation through [iter_mut().find(..)]: the first step of that name. *)
Fixpoint update_first (name : string) (f : RunningScriptStep -> RunningScriptStep)
    (steps : list RunningScriptStep) : list RunningScriptStep :=
  match steps with
  | [] => []
  | s :: rest => if String.eqb (rs_name s) name then f s :: rest
                 else s :: update_first name f rest
  end.

(** [steps.iter().position(|step| step.name == name)] *)
Fixpoint step_position (name : string) (steps : list RunningScriptStep) : option nat :=
  match steps with
  | [] => None
  | s :: rest => if String.eqb (rs_name s) name then Some 0
                 else option_map S (step_position name rest)
  end.

(** [JobResult::get_current_step_mut] *)
Definition get_current_step (jr : JobResult) : option RunningScriptStep :=
  match jr_current_step_name jr with
  | Some name => find_step name (jr_steps jr)
  | None => None
  end.

(** The results directory, [<results>/<id>/result.yml] by id. *)
Abbreviation ResultStore := (gmap string JobResult).

(** What the filesystem answers to a write of [<results>/<id>/result.yml]
    of the job result [jr] over the directory [fs]: [Some e] when
    [default_job_results_location()], [File::create] or
    [serde_yaml::to_writer] fails with the message [e], [None] when the
    write succeeds.  The answer may depend on the result written and on
    the directory. *)
Definition WriteIO : Type := JobResult -> ResultStore -> option string.

(** A filesystem on which every write succeeds. *)
Definition writes_succeed : WriteIO := fun _ _ => None.

(** [JobResult::save]: nothing is written for a dry run.  A failed write
    leaves the directory as it was (a [to_writer] failure after
    [File::create] has truncated the file is not represented). *)
Definition job_result_save (io : WriteIO) (jr : JobResult) (fs : ResultStore)
    : result ResultStore string :=
  if jr_dry_run jr then Ok fs
  else match io jr fs with
       | Some e => Err e
       | None => Ok (<[jr_id jr := jr]> fs)
       end.

(** [JobResult::start_step].  The methods on [&mut self] return, with an
    error, the job result as they left it in memory: [Err (e, jr')]. *)
Definition start_step (io : WriteIO) (now : nat) (jr : JobResult) (fs : ResultStore)
    : result (JobResult * ResultStore) (string * JobResult) :=
  match get_current_step jr, jr_current_step_name jr with
  | Some _, Some name =>
      let jr' := with_steps (update_first name (step_start now) (jr_steps jr)) jr in
      match job_result_save io jr' fs with
      | Ok fs' => Ok (jr', fs')
      | Err e => Err (e, jr')
      end
  | _, _ => Err ("No current step", jr)
  end.

(** [JobResult::finish_step].  The source passes the [bool] to
    [RunningScriptStep::finish], whose parameter is a [ScriptStatus]; the
    model reads [true] as [Success] and [false] as [Failed]. *)
Definition finish_step (io : WriteIO) (is_success : bool) (now : nat) (jr : JobResult)
    (fs : ResultStore) : result (JobResult * ResultStore) (string * JobResult) :=
  match jr_current_step_name jr with
  | None => Err ("No current step", jr)
  | Some current_step_name =>
      match find_step current_step_name (jr_steps jr) with
      | None => Err ("Failed to get current step", jr)
      | Some _ =>
          let jr1 := with_steps
                       (update_first current_step_name
                          (step_finish (if is_success then Success else Failed) now)
                          (jr_steps jr)) jr in
          if negb is_success then
            let jr2 := with_finished (Some now) (with_updated now (with_is_success false jr1)) in
            match job_result_save io jr2 fs with
            | Ok fs' => Ok (jr2, fs')
            | Err e => Err (e, jr2)
            end
          else
            match step_position current_step_name (jr_steps jr1) with
            | Some index =>
                let jr2 :=
                  if index + 1 <? length (jr_steps jr1) then
                    match jr_steps jr1 !! (index + 1) with
                    | Some next => with_updated now (with_current (Some (rs_name next)) jr1)
                    | None => jr1
                    end
                  else with_finished (Some now) (with_updated now jr1) in
                match job_result_save io jr2 fs with
                | Ok fs' => Ok (jr2, fs')
                | Err e => Err (e, jr2)
                end
            | None => Ok (jr1, fs)
            end
      end
  end.

(** [impl TryFrom<(&Job, &Script, bool)> for JobResult]; [None] is a panic
    of the identifier generation. *)
Definition job_result_try_from (ids : IdState) (job : Job) (script : Script)
    (dry_mode : bool) (now : nat) : option (result (JobResult * IdState) string) :=
  let id := if negb dry_mode then next_job_result_id ids else IdOk ids "dry_run" in
  match id with
  | IdOk ids' id =>
      Some (Ok (job_result_new id (job_id job) (map running_step_from (script_steps script))
                  dry_mode now, ids'))
  | IdErr e => Some (Err e)
  | IdPanic | IdOutOfFuel => None
  end.

(** ** The step engine ([job/execution.rs])

    The operations of a step are run by [exec_value], with access to the
    parameters, the job result and the results directory; [io] answers
    the writes of the job result. *)

Section Engine.

Variable io : WriteIO.
Variable now : nat.
Variable exec_value : ScriptType -> JobResult -> Params -> ResultStore ->
                      result unit string * Params * JobResult * ResultStore.

(** [impl ScriptExecutor for ScriptStep]: the values in order, stopping at
    the first error. *)
Fixpoint run_values (values : list ScriptType) (jr : JobResult) (p : Params)
    (fs : ResultStore) : result unit string * Params * JobResult * ResultStore :=
  match values with
  | [] => (Ok tt, p, jr, fs)
  | v :: rest =>
      match exec_value v jr p fs with
      | (Err e, p', jr', fs') => (Err e, p', jr', fs')
      | (Ok _, p', jr', fs') => run_values rest jr' p' fs'
      end
  end.

(** The [while job_result.finished_at.is_none()] loop of
    [execute_job_result_internal]: [Ok is_success] when the loop is left,
    [Err] for a [return]. *)
Fixpoint engine_loop (fuel : nat) (jr : JobResult) (p : Params) (fs : ResultStore)
    : Outcome (result bool string * JobResult * Params * ResultStore) :=
  match jr_finished_at jr with
  | Some _ => Done (Ok true, jr, p, fs)
  | None =>
      match fuel with
      | O => OutOfFuel
      | S fuel' =>
          match start_step io now jr fs with
          | Err (e, jr) => Done (Err e, jr, p, fs)
          | Ok (jr, fs) =>
              match get_current_step jr with
              | None => Done (Err "No current step found", jr, p, fs)
              | Some current_step =>
                  let step_name := rs_name current_step in
                  match run_values (rs_values current_step) jr p fs with
                  | (Err e, p, jr, fs) =>
                      let message := "Error in step " +:+ step_name +:+ ": " +:+ e in
                      match finish_step io false now jr fs with
                      | Err (e', jr) => Done (Err e', jr, p, fs)
                      | Ok (jr, fs) =>
                          if jr_dry_run jr then Done (Err message, jr, p, fs)
                          else Done (Ok false, jr, p, fs)
                      end
                  | (Ok _, p, jr, fs) =>
                      match finish_step io true now jr fs with
                      | Err (e, jr) =>
                          let message := "Error finishing step " +:+ step_name +:+ ": " +:+ e in
                          if jr_dry_run jr then Done (Err message, jr, p, fs)
                          else Done (Ok false, jr, p, fs)
                      | Ok (jr, fs) => engine_loop fuel' jr p fs
                      end
                  end
              end
          end
      end
  end.

(** [JobExecutor::execute_job_result_internal] *)
Definition execute_job_result_internal (fuel : nat) (jr : JobResult) (p : Params)
    (fs : ResultStore) : Outcome (result unit string * JobResult * Params * ResultStore) :=
  match engine_loop fuel jr p fs with
  | OutOfFuel => OutOfFuel
  | Done (Err e, jr, p, fs) => Done (Err e, jr, p, fs)
  | Done (Ok is_success, jr, p, fs) =>
      let jr := with_is_success is_success jr in
      match job_result_save io jr fs with
      | Err e => Done (Err e, jr, p, fs)
      | Ok fs => Done (Ok tt, jr, p, fs)
      end
  end.

(** [JobExecutor::validate]: a dry-run job result over the merged
    parameters.  The loop makes one round per step when step names are
    distinct, so the model gives it one round more than there are steps. *)
Definition validate (ids : IdState) (job : Job) (script : Script) (scripts : ScriptStore)
    (parameters : Params) (fs : ResultStore)
    : option (Outcome (result unit string * ResultStore)) :=
  match merged_parameters job (Some script) scripts parameters with
  | Err e => Some (Done (Err e, fs))
  | Ok merged =>
      match job_result_try_from ids job script true now with
      | None => None
      | Some (Err e) => Some (Done (Err e, fs))
      | Some (Ok (jr, _)) =>
          match execute_job_result_internal (S (length (script_steps script))) jr merged fs with
          | OutOfFuel => Some OutOfFuel
          | Done (r, _, _, fs) => Some (Done (r, fs))
          end
      end
  end.

End Engine.

(** The dry-run outcome as the specification words it: the steps in order,
    the first failure of an operation being returned as
    ["Error in step <name>: <err>"]; [exec_dry] runs one operation. *)
Fixpoint run_values_dry (exec_dry : ScriptType -> Params -> result unit string * Params)
    (values : list ScriptType) (p : Params) : result unit string * Params :=
  match values with
  | [] => (Ok tt, p)
  | v :: rest =>
      match exec_dry v p with
      | (Err e, p') => (Err e, p')
      | (Ok _, p') => run_values_dry exec_dry rest p'
      end
  end.

Fixpoint first_step_failure (exec_dry : ScriptType -> Params -> result unit string * Params)
    (steps : list ScriptStep) (p : Params) : result unit string :=
  match steps with
  | [] => Ok tt
  | s :: rest =>
      match run_values_dry exec_dry (step_values s) p with
      | (Err e, _) => Err ("Error in step " +:+ step_name s +:+ ": " +:+ e)
      | (Ok _, p') => first_step_failure exec_dry rest p'
      end
  end.

(** ** Process supervision ([utils.rs], [job/execution.rs])

    A snapshot of the process table is the list of its entries, each a pid
    and the pid of its parent, in the iteration order of
    [System::processes()]. *)

Abbreviation ProcessTable := (list (nat * option nat)).

(** [for (child_pid, process) in processes { if process.parent() == Some(parent_pid) ... }] *)
Definition children_of (table : ProcessTable) (parent_pid : nat) : list nat :=
  map fst (List.filter (fun e => match e.2 with Some q => q =? parent_pid | None => false end) table).

(** One round of the [while !last_list.is_empty()] loop: [new_list]. *)
Definition next_level (table : ProcessTable) (last_list : list nat) : list nat :=
  flat_map (children_of table) last_list.

Fixpoint process_bfs (fuel : nat) (table : ProcessTable) (last_list : list nat)
    : Outcome (list nat) :=
  match last_list with
  | [] => Done []
  | _ =>
      match fuel with
      | O => OutOfFuel
      | S fuel' =>
          let new_list := next_level table last_list in
          match process_bfs fuel' table new_list with
          | Done rest => Done (new_list ++ rest)
          | OutOfFuel => OutOfFuel
          end
      end
  end.

(** [get_process_recursive] *)
Definition get_process_recursive (fuel : nat) (table : ProcessTable) (pid : nat)
    : Outcome (list nat) :=
  process_bfs fuel table [pid].

(** [s.process(p)] is [Some _] *)
Definition process_exists (table : ProcessTable) (p : nat) : bool :=
  existsb (fun e => e.1 =? p) table.

(** The pids the cancellation observer calls [process.kill()] on, in order:
    for each recorded pid, the reversed result of [get_process_recursive],
    skipping pids absent from the table. *)
Fixpoint kill_sequence (fuel : nat) (table : ProcessTable) (child_process_ids : list nat)
    : Outcome (list nat) :=
  match child_process_ids with
  | [] => Done []
  | child_process :: rest =>
      match get_process_recursive fuel table child_process, kill_sequence fuel table rest with
      | Done processes, Done killed =>
          Done (List.filter (process_exists table) (rev processes) ++ killed)
      | _, _ => OutOfFuel
      end
  end.

(** The exit status of a child: whether it succeeded and its [Display]. *)
Record ExitStatus : Type := {
  status_success : bool;
  status_display : string
}.

(** [Vec::pop], its value dropped. *)
Definition vec_pop {A : Type} (l : list A) : list A := removelast l.

(** [execute_script]: [has_stdout] and [has_stderr] say whether the pipes
    could be taken; [wait_result] is the result of [child.wait()] after the
    polling loop. *)
Definition execute_script (io : WriteIO) (pid : nat) (has_stdout has_stderr : bool)
    (wait_result : result ExitStatus string) (jr : JobResult) (fs : ResultStore)
    : result unit string * JobResult * ResultStore :=
  let jr := with_child_process_ids (jr_child_process_ids jr ++ [pid]) jr in
  match job_result_save io jr fs with
  | Err e => (Err e, jr, fs)
  | Ok fs =>
      if negb has_stdout then
        (Err "Failed to open stdout",
         with_child_process_ids (vec_pop (jr_child_process_ids jr)) jr, fs)
      else if negb has_stderr then
        (Err "Failed to open stderr",
         with_child_process_ids (vec_pop (jr_child_process_ids jr)) jr, fs)
      else
        match wait_result with
        | Err e => (Err e, jr, fs)
        | Ok status =>
            let jr := with_child_process_ids (vec_pop (jr_child_process_ids jr)) jr in
            if status_success status then (Ok tt, jr, fs)
            else (Err ("Process exited with status: " +:+ status_display status), jr, fs)
        end
  end.

(** ** Auxiliary definitions for the proofs *)

(** A script parameter that validation reports: required, without default,
    and not defined among the Job's parameters. *)
Definition is_missing (job : Job) (sp : ScriptParameter) : Prop :=
  sp_required sp = true /\ sp_default sp = None /\
  ~ Exists (fun jp => jp_name jp = sp_name sp) (job_parameters job).

Global Instance is_missing_dec (job : Job) (sp : ScriptParameter) : Decision (is_missing job sp).
Proof.
  unfold is_missing.
  destruct (sp_default sp) eqn:Hd.
  - right. intros (_ & ? & _). done.
  - apply and_dec; [apply bool_eq_dec | apply and_dec; [left; done|]].
    apply not_dec. apply Exists_dec. intros jp. apply String.string_dec.
Defined.

(** One step of the fold in [merged_parameters]. *)
Definition merge_step (job : Job) (provided : Params)
    (acc : result Params string) (parameter : ScriptParameter) : result Params string :=
  match acc with
  | Err e => Err e
  | Ok merged =>
      match resolve_parameter_value job parameter provided with
      | Err e => Err e
      | Ok (Some value) => Ok (<[parameter_key (sp_name parameter) := value]> merged)
      | Ok None => Ok merged
      end
  end.

Definition resolved (job : Job) (sp : ScriptParameter) (provided : Params)
    : option ScriptParameterType :=
  match resolve_parameter_value job sp provided with Ok v => v | Err _ => None end.

Definition step_key (s : RunningScriptStep) : string * list ScriptType :=
  (rs_name s, rs_values s).

Definition script_step_key (s : ScriptStep) : string * list ScriptType :=
  (step_name s, step_values s).

(** Sample operations: a bash operation with code [false] fails. *)
Definition sample_exec_dry (v : ScriptType) (p : Params) : result unit string * Params :=
  match v with
  | Bash "false" => (Err "Process exited with status: exit status: 1", p)
  | _ => (Ok tt, p)
  end.

Definition sample_exec_value (v : ScriptType) (jr : JobResult) (p : Params) (fs : ResultStore)
    : result unit string * Params * JobResult * ResultStore :=
  ((sample_exec_dry v p).1, (sample_exec_dry v p).2, jr, fs).

(** ** Further operations of the job and script models *)

(** [impl From<&Script> for Job] (src/src/job/mod.rs); the trigger
    placeholders are the [Default] values of the trigger parameters. *)
Definition job_from_script (script : Script) : Job :=
  {| job_id := "id";
     job_name := script_name script;
     job_parameters := map (fun p => {| jp_name := sp_name p; jp_default := sp_default p |})
                           (script_parameters script);
     job_triggers := [Manual; Github "main" ["push"] "" "git@github.com:godotengine/godot.git"];
     job_script_id := script_id script;
     job_read_only := false |}.

(** [Job::validate] (src/src/job/mod.rs), over the same step engine;
    [Job::execute_job_result] is [execute_job_result_internal]. *)
Definition job_validate (io : WriteIO) (now : nat)
    (exec_value : ScriptType -> JobResult -> Params -> ResultStore ->
                  result unit string * Params * JobResult * ResultStore)
    (ids : IdState) (self : Job) (script : option Script) (scripts : ScriptStore)
    (parameters : Params) (fs : ResultStore)
    : option (Outcome (result unit string * ResultStore)) :=
  match validate_parameters self script scripts with
  | Err e => Some (Done (Err e, fs))
  | Ok _ =>
      match get_script self script scripts with
      | Err e => Some (Done (Err e, fs))
      | Ok script =>
          match merged_parameters self (Some script) scripts parameters with
          | Err e => Some (Done (Err e, fs))
          | Ok merged =>
              match job_result_try_from ids self script true now with
              | None => None
              | Some (Err e) => Some (Done (Err ("Failed to create job result: " +:+ e), fs))
              | Some (Ok (jr, _)) =>
                  match execute_job_result_internal io now exec_value
                          (S (length (script_steps script))) jr merged fs with
                  | OutOfFuel => Some OutOfFuel
                  | Done (r, _, _, fs) => Some (Done (r, fs))
                  end
              end
          end
      end
  end.

(** The cancellation observer of [JobExecutor::execute_with_script]
    (src/src/job/execution.rs): [JobResult::get] of the cancelled id, the
    kills of [kill_sequence] (returned), [finish_step(false)] and [save]
    with their errors only printed, the pids cleared and the result marked
    failed. *)
Definition cancel_cleanup (io : WriteIO) (fuel : nat) (now : nat) (table : ProcessTable)
    (id : string) (fs : ResultStore) : Outcome (list nat * ResultStore) :=
  match fs !! id with
  | None => Done ([], fs)
  | Some job_result =>
      match kill_sequence fuel table (jr_child_process_ids job_result) with
      | OutOfFuel => OutOfFuel
      | Done killed =>
          let '(job_result, fs) :=
            match finish_step io false now job_result fs with
            | Ok (jr', fs') => (jr', fs')
            | Err (_, jr') => (jr', fs)
            end in
          let job_result := with_is_success false (with_child_process_ids [] job_result) in
          match job_result_save io job_result fs with
          | Ok fs => Done (killed, fs)
          | Err _ => Done (killed, fs)
          end
      end
  end.

(** An operation that leaves the progress of the job result alone: its id,
    its steps, its current step, its end and its dry-run flag.  (The bash
    operation only records and removes child pids.) *)
Definition exec_keeps_progress
    (exec_value : ScriptType -> JobResult -> Params -> ResultStore ->
                  result unit string * Params * JobResult * ResultStore) : Prop :=
  forall v jr p fs,
    let '(_, _, jr', _) := exec_value v jr p fs in
    jr_id jr' = jr_id jr /\ jr_steps jr' = jr_steps jr /\
    jr_current_step_name jr' = jr_current_step_name jr /\
    jr_finished_at jr' = jr_finished_at jr /\ jr_dry_run jr' = jr_dry_run jr.

(** ** Examples *)

Example substitute_test_mixed :
  substitute_parameters 5 "$(a)_$(b.c)"
    (<["a" := String_ "v1"]> (<["b.c" := Number 12]> ∅)) false
  = Done (Ok (Some (Single "v1_12"))).
Proof. vm_compute. reflexivity. Qed.

Example substitute_test_array :
  substitute_parameters 5 "prefix_$(x)_suffix"
    (<["x" := StringArray ["a"; "b"; "c"]]> ∅) false
  = Done (Ok (Some (Single "prefix_a, b, c_suffix"))).
Proof. vm_compute. reflexivity. Qed.

Example nl_is_newline : nl = "010"%char.
Proof. reflexivity. Qed.

Example cr_is_return : cr = "013"%char.
Proof. reflexivity. Qed.

Example rust_lines_test :
  rust_lines ("a" +:+ String nl (String cr (String nl ("b" +:+ String nl EmptyString))))
  = ["a"; ""; "b"].
Proof. reflexivity. Qed.

(** ** Facts about the string primitives *)

Section StringFacts.

Lemma str_app_cons (c : ascii) (a b : string) :
  String c a +:+ b = String c (a +:+ b).
Proof. reflexivity. Qed.

Lemma str_length_app (a b : string) :
  String.length (a +:+ b) = String.length a + String.length b.
Proof. induction a as [|c a IH]; simpl; [done | by rewrite IH]. Qed.

Lemma str_prefix_app (a b : string) : str_prefix a (a +:+ b) = true.
Proof.
  induction a as [|c a IH]; simpl; [done|].
  by rewrite Ascii.eqb_refl, IH.
Qed.

Lemma str_take_app (a b : string) : str_take (String.length a) (a +:+ b) = a.
Proof. induction a as [|c a IH]; simpl; [done | by rewrite IH]. Qed.

Lemma str_drop_app (a b : string) : str_drop (String.length a) (a +:+ b) = b.
Proof. induction a as [|c a IH]; simpl; [done | by rewrite IH]. Qed.

Lemma str_take_all (n : nat) (s : string) :
  String.length s <= n -> str_take n s = s.
Proof.
  revert n; induction s as [|c s IH]; intros [|n] Hn; simpl in *; try done; try lia.
  rewrite IH; [done | lia].
Qed.

Lemma str_app_nil_r (a : string) : a +:+ EmptyString = a.
Proof. induction a as [|c a IH]; [done | by rewrite str_app_cons, IH]. Qed.

Lemma str_app_assoc (a b c : string) : a +:+ (b +:+ c) = (a +:+ b) +:+ c.
Proof. induction a as [|x a IH]; [done | by rewrite !str_app_cons, IH]. Qed.

Lemma find_char_app_none (c : ascii) (a b : string) :
  find_char c a = None ->
  find_char c (a +:+ b) = (fun n => String.length a + n) <$> find_char c b.
Proof.
  induction a as [|x a IH]; simpl; intros H.
  - by destruct (find_char c b).
  - destruct (Ascii.eqb x c); [done|].
    destruct (find_char c a) eqn:E; [done|].
    rewrite IH by done. by destruct (find_char c b).
Qed.

Lemma replace_go_skip (pat v a b : string) :
  replace_go pat v (String.length a) (a +:+ b) = replace_go pat v 0 b.
Proof. induction a as [|c a IH]; simpl; [done | exact IH]. Qed.

End StringFacts.

Lemma find_char_token (k rest : string) :
  no_close k = true ->
  find_char ")" (param_token k +:+ rest) = Some (2 + String.length k).
Proof.
  unfold no_close, param_token. intros Hk.
  destruct (find_char ")" k) eqn:E; [done|].
  rewrite <- !str_app_assoc. simpl.
  rewrite (find_char_app_none _ _ _ E). simpl. do 2 f_equal. lia.
Qed.

Lemma param_token_length (k : string) :
  String.length (param_token k) = 3 + String.length k.
Proof. unfold param_token. simpl. rewrite str_length_app. simpl. lia. Qed.

Lemma token_name (k rest : string) :
  str_take (2 + String.length k - 2) (str_drop 2 (param_token k +:+ rest)) = k.
Proof.
  unfold param_token. rewrite <- !str_app_assoc. simpl.
  replace (String.length k - 0) with (String.length k) by lia.
  apply str_take_app.
Qed.

Lemma token_full (k rest : string) :
  str_take (S (2 + String.length k)) (param_token k +:+ rest) = param_token k.
Proof.
  replace (S (2 + String.length k)) with (String.length (param_token k))
    by (rewrite param_token_length; lia).
  apply str_take_app.
Qed.

Lemma replace_go_match (pat v rest : string) :
  pat <> EmptyString ->
  replace_go pat v 0 (pat +:+ rest) = v +:+ replace_go pat v 0 rest.
Proof.
  destruct pat as [|c p']; [done|]. intros _.
  pose proof (str_prefix_app (String c p') rest) as Hp.
  rewrite str_app_cons in *. cbn [replace_go]. rewrite Hp.
  cbn [String.length]. replace (S (String.length p') - 1) with (String.length p') by lia.
  by rewrite replace_go_skip.
Qed.

Lemma replace_go_self (pat v : string) :
  pat <> EmptyString -> replace_go pat v 0 pat = v.
Proof.
  intros H. rewrite <- (str_app_nil_r pat) at 2.
  rewrite replace_go_match by done. apply str_app_nil_r.
Qed.

Lemma replace_token_app (k v rest : string) :
  replace_go (param_token k) v 0 (param_token k +:+ rest)
  = v +:+ replace_go (param_token k) v 0 rest.
Proof. apply replace_go_match. unfold param_token. done. Qed.

Lemma replace_go_nomatch (pat v : string) (c : ascii) (s : string) :
  str_prefix pat (String c s) = false ->
  replace_go pat v 0 (String c s) = String c (replace_go pat v 0 s).
Proof. intros H. cbn [replace_go]. by rewrite H. Qed.

Lemma str_drop_0 (s : string) : str_drop 0 s = s.
Proof. reflexivity. Qed.

Lemma find_str_token (k rest : string) :
  find_str "$(" (param_token k +:+ rest) = Some 0.
Proof. reflexivity. Qed.

(** One iteration of the loop on a template that is exactly one token. *)
Lemma substitute_token (fuel : nat) (p : Params) (optional : bool) (k : string) :
  no_close k = true ->
  substitute_loop (S fuel) p optional (param_token k) =
  match p !! k with
  | None =>
      if optional then Done (Ok None)
      else Done (Err ("Parameter '" +:+ k +:+ "' not found"))
  | Some (StringArray arr) => Done (Ok (Some (Multiple arr)))
  | Some v => substitute_loop fuel p optional (value_to_string v)
  end.
Proof.
  intros Hk.
  rewrite <- (str_app_nil_r (param_token k)).
  cbn [substitute_loop]. rewrite find_str_token, str_drop_0.
  rewrite (find_char_token _ _ Hk). cbv zeta.
  rewrite token_full, token_name.
  rewrite str_app_nil_r, param_token_length.
  replace (3 + String.length k - 1) with (2 + String.length k) by lia.
  destruct (p !! k) as [v|]; rewrite ?Nat.eqb_refl;
    [|by destruct optional; reflexivity].
  unfold str_replace. rewrite replace_go_self by (unfold param_token; done).
  destruct v; done.
Qed.

Lemma find_str_cons (p : string) (c : ascii) (s : string) :
  find_str p (String c s) = if str_prefix p (String c s) then Some 0 else S <$> find_str p s.
Proof. destruct p; reflexivity. Qed.

(** The first [$(] of [pre ++ $(k) ++ rest] is the token's when [pre] has
    none. *)
Lemma find_str_before_token (pre k rest : string) :
  find_str "$(" pre = None ->
  find_str "$(" (pre +:+ param_token k +:+ rest) = Some (String.length pre).
Proof.
  induction pre as [|c pre IH]; intros H; [reflexivity|].
  rewrite str_app_cons, find_str_cons. rewrite find_str_cons in H.
  destruct (str_prefix "$(" (String c pre)) eqn:Hp; [discriminate|].
  destruct (find_str "$(" pre) eqn:Hf; [discriminate|].
  rewrite IH by reflexivity.
  assert (Hp' : str_prefix "$(" (String c (pre +:+ param_token k +:+ rest)) = false).
  { cbn [str_prefix] in Hp |- *. destruct (Ascii.eqb "$" c); [|reflexivity].
    destruct pre as [|d pre']; [reflexivity|exact Hp]. }
  rewrite Hp'. reflexivity.
Qed.

(** One iteration of the loop on a template whose first [$(] opens the
    token [$(k)] of a known key: every occurrence of the token is replaced
    by the value's text and the loop continues on the whole rewritten
    string. *)
Lemma substitute_step (fuel : nat) (p : Params) (optional : bool)
    (pre k rest : string) (v : ScriptParameterType) :
  no_close k = true -> find_str "$(" pre = None -> p !! k = Some v ->
  (forall a, v = StringArray a -> pre +:+ rest <> EmptyString) ->
  substitute_loop (S fuel) p optional (pre +:+ param_token k +:+ rest) =
  substitute_loop fuel p optional
    (str_replace (param_token k) (value_to_string v) (pre +:+ param_token k +:+ rest)).
Proof.
  intros Hk Hpre Hv Harr.
  cbn [substitute_loop]. rewrite (find_str_before_token _ _ _ Hpre).
  rewrite str_drop_app, (find_char_token _ _ Hk). cbv zeta.
  rewrite token_full, token_name, Hv.
  destruct v as [| | | | |a]; try reflexivity.
  assert (Hpure : (String.length pre =? 0) &&
                  (2 + String.length k =? String.length (param_token k +:+ rest) - 1) = false).
  { rewrite str_length_app, param_token_length.
    destruct pre as [|c pre]; [|reflexivity].
    destruct rest as [|c rest]; [destruct (Harr a eq_refl eq_refl)|].
    cbn [String.length]. apply andb_false_intro2, Nat.eqb_neq. lia. }
  rewrite Hpure. reflexivity.
Qed.

Lemma str_prefix_token_other (k s : string) (c : ascii) :
  Ascii.eqb "$" c = false -> str_prefix (param_token k) (String c s) = false.
Proof. intros H. unfold param_token. cbn [String.append str_prefix]. by rewrite H. Qed.

Ltac replace_skip :=
  repeat (rewrite replace_go_nomatch by (apply str_prefix_token_other; reflexivity)).

(** ** C1: the substitution laws *)

(** C1. For every parameter map [p] and keys [k], [missing] free of [)]:
    [$(k)] gives [Single "x"] when [p] maps [k] to [String "x"] and
    [Multiple ["a";"b"]] when it maps [k] to [StringArray ["a";"b"]];
    ["pre-$(k)-post"] then gives [Single "pre-a, b-post"]; and when [missing]
    is absent, [$(missing)] gives [None] when optional and the error
    ["Parameter 'missing' not found"] otherwise.  The fuel only bounds the
    loop; one iteration suffices here. *)
Theorem substitution_laws (p : Params) (k missing : string) (fuel : nat)
    (Hk : no_close k = true) (Hm : no_close missing = true) :
  (p !! k = Some (String_ "x") ->
     substitute_parameters (S fuel) (param_token k) p false
     = Done (Ok (Some (Single "x")))) /\
  (p !! k = Some (StringArray ["a"; "b"]) ->
     substitute_parameters (S fuel) (param_token k) p false
     = Done (Ok (Some (Multiple ["a"; "b"])))) /\
  (p !! k = Some (StringArray ["a"; "b"]) ->
     substitute_parameters (S fuel) ("pre-" +:+ param_token k +:+ "-post") p false
     = Done (Ok (Some (Single "pre-a, b-post")))) /\
  (p !! missing = None ->
     substitute_parameters (S fuel) (param_token missing) p true = Done (Ok None) /\
     substitute_parameters (S fuel) (param_token missing) p false
     = Done (Err ("Parameter '" +:+ missing +:+ "' not found"))).
Proof.
  unfold substitute_parameters. split; [|split; [|split]].
  - intros H. rewrite (substitute_token _ _ _ _ Hk), H. destruct fuel; reflexivity.
  - intros H. by rewrite (substitute_token _ _ _ _ Hk), H.
  - intros H.
    change ("pre-" +:+ param_token k +:+ "-post")
      with (String "p" (String "r" (String "e" (String "-" (param_token k +:+ "-post"))))).
    assert (Hf : find_str "$(" (String "p" (String "r" (String "e" (String "-"
                   (param_token k +:+ "-post"))))) = Some 4) by reflexivity.
    cbn [substitute_loop]. rewrite Hf.
    change (String "p" (String "r" (String "e" (String "-" (param_token k +:+ "-post")))))
      with ("pre-" +:+ (param_token k +:+ "-post")).
    rewrite (str_drop_app "pre-").
    rewrite (find_char_token _ _ Hk). cbv zeta.
    rewrite token_full, token_name, H. cbn [Nat.eqb andb].
    unfold str_replace.
    change ("pre-" +:+ (param_token k +:+ "-post"))
      with (String "p" (String "r" (String "e" (String "-" (param_token k +:+ "-post"))))).
    replace_skip. rewrite replace_token_app. replace_skip.
    destruct fuel; reflexivity.
  - intros H. by rewrite !(substitute_token _ _ _ _ Hm), H.
Qed.

(** ** Line counting through substitution *)

Section LineFacts.

Lemma str_prefix_inv (p s : string) :
  str_prefix p s = true -> exists t, s = p +:+ t.
Proof.
  revert s; induction p as [|a p IH]; intros s H.
  - by exists s.
  - destruct s as [|b s]; [done|]. simpl in H.
    apply andb_prop in H as [Hab Hp].
    apply Ascii.eqb_eq in Hab as ->.
    destruct (IH s Hp) as [t ->]. by exists t.
Qed.

Lemma find_char_take (c : ascii) (s : string) (e : nat) :
  find_char c s = Some e -> str_take (S e) s = str_take e s +:+ String c EmptyString.
Proof.
  revert e; induction s as [|a s IH]; intros e H; simpl in H; [done|].
  destruct (Ascii.eqb a c) eqn:Eac.
  - injection H as <-. apply Ascii.eqb_eq in Eac as ->. done.
  - destruct (find_char c s) as [e'|] eqn:E; [|done].
    injection H as <-. change (String a (str_take (S e') s) =
      String a (str_take e' s +:+ String c EmptyString)).
    f_equal. by apply IH.
Qed.

Lemma line_count_open (o : bool) (s : string) : line_count o s <= line_count true s.
Proof. destruct s; simpl; [destruct o; lia | lia]. Qed.

Lemma line_count_no_nl (o : bool) (v t : string) :
  no_newline v = true ->
  line_count o (v +:+ t) = line_count (o || match v with EmptyString => false | _ => true end) t.
Proof.
  unfold no_newline. revert o; induction v as [|a v IH]; intros o H.
  - by destruct o.
  - simpl in *. destruct (Ascii.eqb a nl); [done|].
    rewrite IH.
    + by destruct o.
    + by destruct (find_char nl v).
Qed.

Lemma line_count_closed (o : bool) (a t : string) (c : ascii) :
  Ascii.eqb c nl = false ->
  line_count true t <= line_count o ((a +:+ String c EmptyString) +:+ t).
Proof.
  intros Hc. revert o; induction a as [|x a IH]; intros o.
  - simpl. rewrite Hc. done.
  - simpl. destruct (Ascii.eqb x nl); [specialize (IH false) | specialize (IH true)]; lia.
Qed.

Lemma replace_line_count (pat v : string) (a : string) (c : ascii) :
  pat = a +:+ String c EmptyString ->
  Ascii.eqb c nl = false ->
  no_newline v = true ->
  forall s o, line_count o (replace_go pat v 0 s) <= line_count o s.
Proof.
  intros Hpat Hc Hv s.
  remember (String.length s) as n eqn:Hn.
  revert s Hn. induction n as [n IHn] using lt_wf_ind. intros s Hn o.
  destruct s as [|x s']; [done|].
  destruct (str_prefix pat (String x s')) eqn:Hp.
  - destruct (str_prefix_inv _ _ Hp) as [t Ht]. rewrite Ht.
    assert (Hne : pat <> EmptyString).
    { rewrite Hpat. destruct a; done. }
    rewrite replace_go_match by done.
    rewrite line_count_no_nl by done.
    etransitivity; [apply line_count_open|].
    etransitivity.
    + apply (IHn (String.length t)); [|done].
      rewrite Hn, Ht, str_length_app.
      destruct pat; [done | simpl; lia].
    + rewrite Hpat. apply line_count_closed, Hc.
  - cbn [replace_go]. rewrite Hp. simpl.
    assert (Hlt : String.length s' < n) by (subst; simpl; lia).
    destruct (Ascii.eqb x nl).
    + specialize (IHn _ Hlt s' eq_refl false). lia.
    + exact (IHn _ Hlt s' eq_refl true).
Qed.

(** Every iteration of the loop replaces a token ending in [)] by a value
    without newline, so the line count never grows. *)
Lemma substitute_loop_line_count (fuel : nat) (p : Params) (o : bool) (r r' : string) :
  Forall (fun v => no_newline (value_to_string v) = true) (substituted_values fuel p o r) ->
  substitute_loop fuel p o r = Done (Ok (Some (Single r'))) ->
  line_count false r' <= line_count false r.
Proof.
  revert r. induction fuel as [|fuel IH]; intros r Hp H.
  - cbn [substitute_loop] in H. destruct (find_str "$(" r); [done|].
    by injection H as ->.
  - cbn [substitute_loop substituted_values] in H, Hp.
    destruct (find_str "$(" r) as [start|]; [|by injection H as ->].
    cbv zeta in H, Hp.
    destruct (find_char ")" (str_drop start r)) as [e|] eqn:He; [|done].
    destruct (p !! _) as [v|] eqn:Hv.
    2:{ destruct (o && _); done. }
    assert (Hstep : no_newline (value_to_string v) = true ->
              line_count false
                (str_replace (str_take (S e) (str_drop start r)) (value_to_string v) r)
              <= line_count false r).
    { intros Hnl. unfold str_replace. eapply replace_line_count.
      - apply find_char_take, He.
      - reflexivity.
      - exact Hnl. }
    destruct v as [| | | | |a]; [..|destruct (_ && _); [done|]];
      apply Forall_cons in Hp as [Hnl Hp];
      (etransitivity; [apply (IH _ Hp H) | exact (Hstep Hnl)]).
Qed.

Lemma lines_acc_length (cur s : string) :
  length (lines_acc cur s) = line_count (match cur with EmptyString => false | _ => true end) s.
Proof.
  revert cur; induction s as [|c s IH]; intros cur; simpl.
  - by destruct cur.
  - destruct (Ascii.eqb c nl); simpl; rewrite IH; [done|].
    by destruct cur.
Qed.

Lemma rust_lines_length (s : string) : length (rust_lines s) = line_count false s.
Proof. apply lines_acc_length. Qed.

Lemma bash_lines_no_panic (St : Type) (exec : string -> St -> result St string)
    (orig : list string) (lines : list string) :
  forall i dry st logs,
  i + length lines <= length orig ->
  bash_lines St exec orig i lines dry st logs <> BashPanic.
Proof.
  induction lines as [|line rest IH]; intros i dry st logs Hlen; simpl; [done|].
  simpl in Hlen.
  destruct line as [|c l].
  - apply IH. lia.
  - destruct (orig !! i) as [o|] eqn:Ho.
    + destruct dry; [apply IH; lia|].
      destruct (exec _ st); [apply IH; lia | done].
    + apply lookup_ge_None_1 in Ho. lia.
Qed.

End LineFacts.

(** ** C1 witness *)

Lemma substitution_laws_witness :
  substitute_parameters 1 (param_token "k") (<["k" := String_ "x"]> ∅) false
  = Done (Ok (Some (Single "x"))).
Proof.
  apply (proj1 (substitution_laws (<["k" := String_ "x"]> ∅) "k" "missing" 0
                  eq_refl eq_refl)).
  reflexivity.
Defined.

(** ** C9: substitution re-scans the rewritten text *)

(** C9 (counterexample). With [k] mapped to ["$(j)"] and [j] to ["y"], the
    template ["$(k)"] substitutes to [Single "y"]: the value ["$(j)"] does
    not appear verbatim in the result, it is resolved again. *)
Lemma substitution_rescans_counterexample :
  substitute_parameters 5 "$(k)"
    (<["k" := String_ "$(j)"]> (<["j" := String_ "y"]> ∅)) false
  = Done (Ok (Some (Single "y")))
  /\ find_str "$(j)" "y" = None.
Proof. split; vm_compute; reflexivity. Qed.

(** C9 (amended). After each replacement the loop searches the whole
    rewritten string again from its start.  For a template
    [pre ++ $(k) ++ rest] whose first [$(] opens the token [$(k)], with [k]
    mapped to [v] (an array only when the token is not the whole template),
    one iteration replaces every [$(k)] by the text of [v] and the
    substitution continues on the whole rewritten string, the text of [v]
    included.  So a template that is exactly [$(k)] continues as the
    substitution of the text of [v]; and a value that reintroduces its own
    token ([k] mapped to ["$(k)"]) keeps the loop running for any fuel. *)
Theorem substitution_rescans (fuel : nat) (p : Params) (optional : bool)
    (pre k rest : string) (v : ScriptParameterType)
    (Hk : no_close k = true) (Hpre : find_str "$(" pre = None) (Hv : p !! k = Some v)
    (Harr : forall a, v = StringArray a -> pre +:+ rest <> EmptyString) :
  substitute_parameters (S fuel) (pre +:+ param_token k +:+ rest) p optional
  = substitute_parameters fuel
      (str_replace (param_token k) (value_to_string v) (pre +:+ param_token k +:+ rest))
      p optional
  /\ (pre = EmptyString -> rest = EmptyString ->
      substitute_parameters (S fuel) (param_token k) p optional
      = substitute_parameters fuel (value_to_string v) p optional)
  /\ forall n, substitute_parameters n "$(k)" (<["k" := String_ "$(k)"]> ∅) false
               = OutOfFuel.
Proof.
  split; [|split].
  - unfold substitute_parameters. exact (substitute_step _ _ _ _ _ _ _ Hk Hpre Hv Harr).
  - intros -> ->. unfold substitute_parameters.
    rewrite <- (str_app_nil_r (param_token k)) at 1.
    rewrite (substitute_step _ _ _ EmptyString _ EmptyString v Hk Hpre Hv Harr).
    rewrite str_app_nil_r. unfold str_replace.
    rewrite replace_go_self by (unfold param_token; done). reflexivity.
  - induction n as [|n IH]; [reflexivity|].
    unfold substitute_parameters in *.
    change "$(k)" with (param_token "k") in *.
    rewrite (substitute_token _ _ _ "k"); [exact IH | reflexivity].
Qed.

Lemma substitution_rescans_witness :
  substitute_parameters 2 ("x " +:+ param_token "k" +:+ " z")
    (<["k" := String_ "$(j)"]> (<["j" := String_ "y"]> ∅)) false
  = substitute_parameters 1 "x $(j) z"
      (<["k" := String_ "$(j)"]> (<["j" := String_ "y"]> ∅)) false.
Proof.
  refine (eq_trans (proj1 (substitution_rescans 1
                  (<["k" := String_ "$(j)"]> (<["j" := String_ "y"]> ∅)) false
                  "x " "k" " z" (String_ "$(j)") _ _ _ _)) _).
  - reflexivity.
  - reflexivity.
  - vm_compute. reflexivity.
  - intros a H. discriminate H.
  - vm_compute. reflexivity.
Defined.

(** ** C10: the bash operation's line indexing *)

(** C10 (counterexample). A key may contain a newline: the code
    ["$(a\nb)"] has two lines, while its substitution ["x"] has one, and
    the only value substituted, ["x"], has no newline. *)
Lemma bash_line_count_counterexample :
  let code := "$(a" +:+ String nl "b)" in
  let p := <["a" +:+ String nl "b" := String_ "x"]> (∅ : Params) in
  substitute_parameters 2 code p false = Done (Ok (Some (Single "x")))
  /\ substituted_values 2 p false code = [String_ "x"]
  /\ no_newline "x" = true
  /\ length (rust_lines "x") = 1
  /\ length (rust_lines code) = 2.
Proof. vm_compute. repeat split. Qed.

(** C10 (amended). When no parameter value the substitution of the code
    writes into it renders with a newline, every successful substitution
    of the code has at most as many lines as the code, so the index into
    the original lines stays in bounds and the bash operation never panics
    on it, whatever [execute_command] does. *)
Theorem bash_original_line_in_bounds (St : Type)
    (execute_command : string -> St -> result St string)
    (fuel : nat) (code : string) (p : Params) (dry_run : bool) (st : St)
    (Hp : Forall (fun v => no_newline (value_to_string v) = true)
            (substituted_values fuel p false code)) :
  (forall replaced,
     substitute_parameters fuel code p false = Done (Ok (Some (Single replaced))) ->
     length (rust_lines replaced) <= length (rust_lines code))
  /\ bash_execute St execute_command fuel code p dry_run st <> BashPanic.
Proof.
  assert (Hlen : forall replaced,
     substitute_parameters fuel code p false = Done (Ok (Some (Single replaced))) ->
     length (rust_lines replaced) <= length (rust_lines code)).
  { intros r Hr. rewrite !rust_lines_length.
    exact (substitute_loop_line_count _ _ _ _ _ Hp Hr). }
  split; [exact Hlen|].
  unfold bash_execute.
  destruct (substitute_parameters fuel code p false) as [[[[r|l]|]|e]|] eqn:Hs;
    try done.
  apply bash_lines_no_panic. simpl. by apply Hlen.
Qed.

Lemma bash_original_line_in_bounds_witness :
  bash_execute unit (fun _ st => Ok st) 3 ("echo $(parameters.a)" +:+ String nl "ls")
    (<["parameters.a" := String_ "hi"]> ∅) false tt <> BashPanic.
Proof.
  refine (proj2 (bash_original_line_in_bounds unit (fun _ st => Ok st) 3
                  ("echo $(parameters.a)" +:+ String nl "ls")
                  (<["parameters.a" := String_ "hi"]> ∅) false tt _)).
  vm_compute. repeat constructor.
Defined.

(** ** Parameter validation and merging *)

Section ParameterFacts.

Lemma collect_missing_acc (job : Job) (l : list ScriptParameter) (acc : list string) :
  fold_left
    (fun missing_parameters parameter =>
       let is_parameter_defined :=
         existsb (fun p => String.eqb (jp_name p) (sp_name parameter)) (job_parameters job) in
       if negb is_parameter_defined
          && match sp_default parameter with None => true | Some _ => false end
          && sp_required parameter
       then missing_parameters ++ [sp_name parameter]
       else missing_parameters) l acc
  = acc ++ map sp_name (filter (fun sp => is_missing job sp) l).
Proof.
  revert acc; induction l as [|sp l IH]; intros acc; simpl.
  - by rewrite app_nil_r.
  - rewrite IH. rewrite filter_cons.
    assert (Hdef : existsb (fun p => String.eqb (jp_name p) (sp_name sp)) (job_parameters job) = true
                   <-> Exists (fun jp => jp_name jp = sp_name sp) (job_parameters job)).
    { rewrite existsb_exists, Exists_exists.
      split; intros (jp & Hin & Heq); exists jp;
        (split; [by apply list_elem_of_In|]);
        [by apply String.eqb_eq | by apply String.eqb_eq]. 
      all: try (apply list_elem_of_In; done). }
    destruct (decide (is_missing job sp)) as [Hm|Hm].
    + destruct Hm as (Hr & Hd & Hnd).
      rewrite Hr, Hd.
      destruct (existsb _ _) eqn:Ee; [exfalso; apply Hnd, Hdef; done|].
      simpl. by rewrite <- app_assoc.
    + destruct (existsb _ _) eqn:Ee; simpl; [done|].
      destruct (sp_default sp) eqn:Hd; simpl; [done|].
      destruct (sp_required sp) eqn:Hr; simpl; [|done].
      exfalso. apply Hm. split; [done | split; [done|]].
      intros Hex. apply Hdef in Hex. discriminate.
Qed.

Lemma collect_missing_filter (job : Job) (l : list ScriptParameter) :
  collect_missing job l = map sp_name (filter (fun sp => is_missing job sp) l).
Proof. unfold collect_missing. by rewrite collect_missing_acc. Qed.

End ParameterFacts.

(** C3. For every Job and Script, parameter validation fails exactly when
    some script parameter is required, has no default and is not defined
    among the Job's parameters; the error is then
    ["Missing required parameters: "] followed by the names of all such
    parameters, in declaration order, joined by [", "].  Validation is a
    pure function of the Job and Script: it has no effect. *)
Theorem validate_parameters_spec (job : Job) (script : Script) (scripts : ScriptStore) :
  (validate_parameters job (Some script) scripts = Ok tt <->
     ~ Exists (is_missing job) (script_parameters script))
  /\ (forall e, validate_parameters job (Some script) scripts = Err e <->
        Exists (is_missing job) (script_parameters script) /\
        e = "Missing required parameters: "
            +:+ str_join ", " (map sp_name (filter (fun sp => is_missing job sp)
                                              (script_parameters script)))).
Proof.
  unfold validate_parameters. simpl. rewrite collect_missing_filter.
  assert (Hex : Exists (is_missing job) (script_parameters script) <->
                filter (fun sp => is_missing job sp) (script_parameters script) <> []).
  { rewrite Exists_exists. split.
    - intros (sp & Hin & Hm) Hnil.
      assert (sp ∈ filter (fun sp => is_missing job sp) (script_parameters script))
        by (apply list_elem_of_filter; split; done).
      rewrite Hnil in H. by apply not_elem_of_nil in H.
    - intros Hne. destruct (filter _ _) as [|sp l] eqn:Ef; [done|].
      assert (Hin : sp ∈ filter (fun sp => is_missing job sp) (script_parameters script))
        by (rewrite Ef; left).
      apply list_elem_of_filter in Hin as [Hm Hin]. by exists sp. }
  destruct (filter _ _) as [|sp l] eqn:Ef; simpl.
  - split; [split; [intros _ Hx; by apply Hex in Hx | done]|].
    intros e. split; [done|]. intros [Hx _]. by apply Hex in Hx.
  - assert (Hx : Exists (is_missing job) (script_parameters script)) by (apply Hex; done).
    split; [split; [done | intros Hn; contradiction]|].
    intros e. split.
    + intros He. injection He as <-. done.
    + intros [_ ->]. done.
Qed.

Section MergeFacts.

Lemma str_app_inj_l (p a b : string) : p +:+ a = p +:+ b -> a = b.
Proof.
  induction p as [|c p IH]; [done|]. rewrite !str_app_cons. intros H.
  injection H. exact IH.
Qed.

Lemma merge_step_ok (job : Job) (provided : Params) (m : Params) (sp : ScriptParameter) :
  merge_step job provided (Ok m) sp =
  Ok (match resolved job sp provided with
      | Some v => <[parameter_key (sp_name sp) := v]> m
      | None => m
      end).
Proof.
  unfold merge_step, resolved, resolve_parameter_value.
  destruct (List.find _ _) as [jp|];
    [destruct (provided !! jp_name jp), (jp_default jp) | destruct (sp_default sp)];
    reflexivity.
Qed.

Lemma merge_fold_other (job : Job) (provided : Params) (l : list ScriptParameter)
    (m : Params) (name : string) :
  name ∉ map sp_name l ->
  exists m', fold_left (merge_step job provided) l (Ok m) = Ok m' /\
             m' !! parameter_key name = m !! parameter_key name.
Proof.
  revert m; induction l as [|x l IH]; intros m Hn; cbn [fold_left]; [by exists m|].
  rewrite merge_step_ok.
  assert (Hx : sp_name x <> name) by (intros Heq; apply Hn; rewrite <- Heq; simpl; left).
  destruct (IH (match resolved job x provided with
                | Some v => <[parameter_key (sp_name x) := v]> m | None => m end))
    as (m' & Hf & Hl); [intros Hin; apply Hn; simpl; by right|].
  exists m'. split; [done|]. rewrite Hl.
  destruct (resolved job x provided); [|done].
  rewrite lookup_insert_ne; [done|].
  intros Hk. apply Hx. unfold parameter_key in Hk. by apply str_app_inj_l in Hk.
Qed.

Lemma merge_fold_lookup (job : Job) (provided : Params) (l : list ScriptParameter)
    (m : Params) (sp : ScriptParameter) :
  NoDup (map sp_name l) -> sp ∈ l ->
  exists m', fold_left (merge_step job provided) l (Ok m) = Ok m' /\
    m' !! parameter_key (sp_name sp) =
      match resolved job sp provided with
      | Some v => Some v
      | None => m !! parameter_key (sp_name sp)
      end.
Proof.
  revert m; induction l as [|x l IH]; intros m Hnd Hin; [by apply not_elem_of_nil in Hin|].
  simpl in Hnd. apply NoDup_cons in Hnd as [Hx Hnd].
  cbn [fold_left]. rewrite merge_step_ok.
  apply elem_of_cons in Hin as [Hsp|Hin]; [subst x|].
  - destruct (merge_fold_other job provided l
                (match resolved job sp provided with
                 | Some v => <[parameter_key (sp_name sp) := v]> m | None => m end)
                (sp_name sp) Hx) as (m' & Hf & Hl).
    exists m'. split; [done|]. rewrite Hl.
    destruct (resolved job sp provided); [by rewrite lookup_insert_eq | done].
  - destruct (IH (match resolved job x provided with
                  | Some v => <[parameter_key (sp_name x) := v]> m | None => m end) Hnd Hin)
      as (m' & Hf & Hl).
    exists m'. split; [done|]. rewrite Hl.
    destruct (resolved job sp provided); [done|].
    destruct (resolved job x provided); [|done].
    rewrite lookup_insert_ne; [done|].
    intros Hk. unfold parameter_key in Hk. apply str_app_inj_l in Hk.
    apply Hx. rewrite Hk. by apply list_elem_of_fmap_2.
Qed.

End MergeFacts.

(** C2 (counterexample). The script parameter [p] has default ["d"]; the
    Job declares [p] without a default; nothing is supplied: the merged map
    has no [parameters.p], where the specified order would give ["d"].
    Also, when the Job does not declare [p], a caller value ["c"] is not
    used: the merged value is the script default ["d"]. *)
Lemma merged_precedence_counterexample :
  let sp := {| sp_name := "p"; sp_description := ""; sp_required := false;
               sp_default := Some (String_ "d") |} in
  let script := {| script_id := "s"; script_name := "s";
                   script_parameters := [sp]; script_steps := [] |} in
  let job_declaring := {| job_id := "j"; job_name := "j";
                          job_parameters := [{| jp_name := "p"; jp_default := None |}];
                          job_triggers := []; job_script_id := "s"; job_read_only := false |} in
  let job_silent := {| job_id := "j"; job_name := "j"; job_parameters := [];
                       job_triggers := []; job_script_id := "s"; job_read_only := false |} in
  (exists merged, merged_parameters job_declaring (Some script) ∅ ∅ = Ok merged /\
     merged !! "parameters.p" = None /\
     spec_precedence job_declaring sp ∅ = Some (String_ "d"))
  /\ (exists merged,
        merged_parameters job_silent (Some script) ∅ (<["p" := String_ "c"]> ∅) = Ok merged /\
        merged !! "parameters.p" = Some (String_ "d") /\
        spec_precedence job_silent sp (<["p" := String_ "c"]> ∅) = Some (String_ "c")).
Proof.
  split; eexists; (split; [reflexivity|]); vm_compute; split; reflexivity.
Qed.

(** C2 (amended). For every script parameter [p] (script parameter names
    being distinct), the merged map holds under [parameters.<p>]: when the
    Job declares [p], the caller value supplied under the bare name [p],
    else that Job parameter's default; when the Job does not declare [p],
    the script parameter's default (a caller value is then not consulted);
    and the key is absent when the chosen source has no value. *)
Theorem merged_parameters_precedence (job : Job) (script : Script) (scripts : ScriptStore)
    (provided : Params) (sp : ScriptParameter)
    (Hnd : NoDup (map sp_name (script_parameters script)))
    (Hin : sp ∈ script_parameters script) :
  exists merged,
    merged_parameters job (Some script) scripts provided = Ok merged /\
    merged !! parameter_key (sp_name sp) =
      match List.find (fun p => String.eqb (jp_name p) (sp_name sp)) (job_parameters job) with
      | Some jp =>
          match provided !! sp_name sp with
          | Some v => Some v
          | None => jp_default jp
          end
      | None => sp_default sp
      end.
Proof.
  unfold merged_parameters. cbn [get_script].
  change (fold_left _ (script_parameters script) (Ok ∅))
    with (fold_left (merge_step job provided) (script_parameters script) (Ok ∅)).
  destruct (merge_fold_lookup job provided _ ∅ sp Hnd Hin) as (m' & Hf & Hl).
  exists m'. split; [exact Hf|]. rewrite Hl.
  unfold resolved, resolve_parameter_value.
  destruct (List.find _ _) as [jp|] eqn:Hfind.
  - apply find_some in Hfind as [_ Heq]. apply String.eqb_eq in Heq. rewrite Heq.
    destruct (provided !! sp_name sp); [done|].
    by destruct (jp_default jp).
  - by destruct (sp_default sp).
Qed.

Lemma merged_parameters_precedence_witness :
  exists merged,
    merged_parameters
      {| job_id := "j"; job_name := "j";
         job_parameters := [{| jp_name := "p"; jp_default := Some (String_ "j") |}];
         job_triggers := []; job_script_id := "s"; job_read_only := false |}
      (Some {| script_id := "s"; script_name := "s";
               script_parameters := [{| sp_name := "p"; sp_description := "";
                                        sp_required := true;
                                        sp_default := Some (String_ "d") |}];
               script_steps := [] |}) ∅ ∅ = Ok merged /\
    merged !! parameter_key "p" = Some (String_ "j").
Proof.
  refine (merged_parameters_precedence _ _ ∅ ∅
            {| sp_name := "p"; sp_description := ""; sp_required := true;
               sp_default := Some (String_ "d") |} _ _).
  - repeat constructor. apply not_elem_of_nil.
  - left.
Defined.

(** ** Facts about job result identifiers *)

Section IdFacts.

Lemma to_uint_nonnil (n : N) : N.to_uint n <> Decimal.Nil.
Proof.
  intros H. pose proof (DecimalN.Unsigned.of_to n) as E.
  rewrite H in E. cbn in E. subst n. discriminate H.
Qed.

Lemma u64_to_string_parse (n : N) :
  NilZero.uint_of_string (u64_to_string n) = Some (N.to_uint n).
Proof. apply NilZero.usu, to_uint_nonnil. Qed.

Lemma u64_to_string_inj (a b : N) : u64_to_string a = u64_to_string b -> a = b.
Proof.
  intros H. apply (f_equal NilZero.uint_of_string) in H.
  rewrite !u64_to_string_parse in H. injection H.
  apply DecimalN.Unsigned.to_uint_inj.
Qed.

Lemma digits_trim_end (s : string) (d : Decimal.uint) :
  NilEmpty.uint_of_string s = Some d ->
  trim_end s = s /\ match s with String c _ => is_ws c = false | EmptyString => True end.
Proof.
  revert d. induction s as [|c r IH]; intros d H; [done|].
  cbn in H. destruct (NilEmpty.uint_of_string r) as [d0|] eqn:E; [|discriminate].
  destruct (IH d0 eq_refl) as [IHr _].
  assert (Hc : is_ws c = false)
    by (apply uint_of_char_spec in H; intuition subst; reflexivity).
  split; [|exact Hc].
  cbn [trim_end]. rewrite IHr. destruct r; [rewrite Hc|]; reflexivity.
Qed.

Lemma trim_u64_to_string (n : N) : trim (u64_to_string n) = u64_to_string n.
Proof.
  pose proof (u64_to_string_parse n) as H.
  destruct (u64_to_string n) as [|c r] eqn:E; [discriminate|].
  cbn in H. destruct (digits_trim_end (String c r) _ H) as [Ht Hc].
  unfold trim. cbn [trim_start]. rewrite Hc. exact Ht.
Qed.

Lemma parse_u64_digits (s : string) (d : Decimal.uint) :
  NilZero.uint_of_string s = Some d ->
  parse_u64 s = if (N.of_uint d <=? u64_max)%N then Some (N.of_uint d) else None.
Proof.
  intros H. destruct s as [|a r]; [discriminate|].
  unfold parse_u64.
  destruct a as [[] [] [] [] [] [] [] []]; cbv beta iota zeta;
    try (rewrite H; reflexivity).
  (* the character '+' is not a digit *)
  cbn in H. destruct (NilEmpty.uint_of_string r); discriminate.
Qed.

Lemma read_counter_u64_to_string (n : N) (r : gmap string ResultFile) :
  (n <= u64_max)%N ->
  read_counter {| ids_file := u64_to_string n; result_files := r |} = n.
Proof.
  intros Hn. unfold read_counter. cbn [ids_file].
  rewrite trim_u64_to_string, (parse_u64_digits _ _ (u64_to_string_parse n)).
  rewrite DecimalN.Unsigned.of_to.
  apply N.leb_le in Hn. rewrite Hn. reflexivity.
Qed.

Lemma probe_spec (fuel : nat) (r : gmap string ResultFile) (n : N) :
  (n <= u64_max)%N ->
  match probe fuel r n with
  | ProbeFound c =>
      (n <= c <= u64_max)%N /\ r !! u64_to_string c = None /\
      (forall m, (n <= m < c)%N -> r !! u64_to_string m = Some ValidResult)
  | ProbeOutOfFuel =>
      forall i, i <= fuel -> is_Some (r !! u64_to_string (n + N.of_nat i))
  | _ => True
  end.
Proof.
  revert n. induction fuel as [|fuel IH]; intros n Hn;
    cbn [probe]; unfold job_result_get;
    destruct (r !! u64_to_string n) as [[|]|] eqn:E; try done.
  - intros i Hi. replace i with 0 by lia. rewrite N.add_0_r, E. by eexists.
  - split; [lia|]. split; [done|]. intros m Hm. lia.
  - unfold u64_succ. destruct (N.ltb_spec n u64_max) as [Hlt|]; [|done].
    specialize (IH (n + 1)%N ltac:(lia)).
    destruct (probe fuel r (n + 1)); try done.
    + destruct IH as (Hc & Hnone & Hall). split; [lia|]. split; [done|].
      intros m Hm. destruct (N.eq_dec m n) as [->|]; [done|]. apply Hall. lia.
    + intros [|i] Hi; [rewrite N.add_0_r, E; by eexists|].
      replace (n + N.of_nat (S i))%N with (n + 1 + N.of_nat i)%N by lia.
      apply IH. lia.
  - split; [lia|]. split; [done|]. intros m Hm. lia.
Qed.

Lemma probe_enough_fuel (r : gmap string ResultFile) (n : N) :
  (n <= u64_max)%N -> probe (S (size r)) r n <> ProbeOutOfFuel.
Proof.
  intros Hn Hp. pose proof (probe_spec (S (size r)) r n Hn) as H. rewrite Hp in H.
  set (L := (fun i => u64_to_string (n + N.of_nat i)) <$> seq 0 (S (S (size r)))).
  assert (Hnd : NoDup L).
  { apply NoDup_fmap_2; [|apply NoDup_seq].
    intros i j Hij. apply u64_to_string_inj in Hij. lia. }
  assert (Hsub : list_to_set L ⊆@{gset string} dom r).
  { intros k Hk. apply elem_of_list_to_set, list_elem_of_fmap in Hk as (i & -> & Hi).
    apply list_elem_of_In, in_seq in Hi. apply elem_of_dom, H. lia. }
  apply subseteq_size in Hsub.
  rewrite size_list_to_set, size_dom in Hsub by exact Hnd.
  unfold L in Hsub. rewrite length_fmap, length_seq in Hsub. lia.
Qed.

Lemma next_job_result_id_no_out_of_fuel (st : IdState) :
  next_job_result_id st <> IdOutOfFuel.
Proof.
  unfold next_job_result_id, u64_succ.
  destruct (N.ltb_spec (read_counter st) u64_max); [|discriminate].
  pose proof (probe_enough_fuel (result_files st) (read_counter st + 1) ltac:(lia)).
  destruct (probe _ _ _); congruence.
Qed.

End IdFacts.

(** C4. An empty counter file reads as 0.  A call of
    [next_job_result_id] that returns an id returns the decimal text of a
    number [c] greater than the counter [n] read from the file, for which no
    result exists, every candidate between [n] and [c] being an existing
    result; it writes that same text back to the counter file and leaves the
    results untouched.  A following call, whatever results exist by then,
    returns a strictly greater number. *)
Theorem next_job_result_id_increasing (st st1 : IdState) (id1 : string)
    (results' : gmap string ResultFile)
    (H1 : next_job_result_id st = IdOk st1 id1) :
  read_counter {| ids_file := EmptyString; result_files := result_files st |} = 0%N /\
  exists c1,
    id1 = u64_to_string c1 /\
    (read_counter st < c1 <= u64_max)%N /\
    result_files st !! id1 = None /\
    (forall m, (read_counter st < m < c1)%N ->
       result_files st !! u64_to_string m = Some ValidResult) /\
    st1 = {| ids_file := id1; result_files := result_files st |} /\
    (forall st2 id2,
       next_job_result_id {| ids_file := ids_file st1; result_files := results' |}
         = IdOk st2 id2 ->
       exists c2, id2 = u64_to_string c2 /\ (c1 < c2)%N).
Proof.
  split; [reflexivity|].
  assert (Hok : forall st st1 id1, next_job_result_id st = IdOk st1 id1 ->
            exists c, id1 = u64_to_string c /\ (read_counter st < c <= u64_max)%N /\
              result_files st !! id1 = None /\
              (forall m, (read_counter st < m < c)%N ->
                 result_files st !! u64_to_string m = Some ValidResult) /\
              st1 = {| ids_file := id1; result_files := result_files st |}).
  { clear. intros st st1 id1 H. unfold next_job_result_id, u64_succ in H.
    destruct (N.ltb_spec (read_counter st) u64_max) as [Hlt|]; [|discriminate].
    pose proof (probe_spec (S (size (result_files st))) (result_files st)
                  (read_counter st + 1) ltac:(lia)) as Hp.
    destruct (probe _ _ _) as [c| | |]; try discriminate.
    injection H as <- <-. destruct Hp as (Hc & Hnone & Hall).
    exists c. split; [done|]. split; [lia|]. split; [done|]. split; [|done].
    intros m Hm. apply Hall. lia. }
  destruct (Hok _ _ _ H1) as (c1 & -> & Hc1 & Hnone & Hall & ->).
  exists c1. do 5 (split; [done|]).
  intros st2 id2 H2. destruct (Hok _ _ _ H2) as (c2 & -> & Hc2 & _).
  exists c2. split; [done|].
  cbn [ids_file] in Hc2. rewrite read_counter_u64_to_string in Hc2 by lia. lia.
Qed.

Lemma next_job_result_id_increasing_witness :
  next_job_result_id {| ids_file := "41"; result_files := <["42" := ValidResult]> ∅ |}
    = IdOk {| ids_file := "43"; result_files := <["42" := ValidResult]> ∅ |} "43" /\
  read_counter {| ids_file := EmptyString; result_files := <["42" := ValidResult]> ∅ |} = 0%N.
Proof.
  refine (conj _ (proj1 (next_job_result_id_increasing
            {| ids_file := "41"; result_files := <["42" := ValidResult]> ∅ |}
            {| ids_file := "43"; result_files := <["42" := ValidResult]> ∅ |} "43" ∅ _)));
  vm_compute; reflexivity.
Defined.

(** ** Facts about running steps *)

Section StepFacts.

Lemma update_first_map {B : Type} (g : RunningScriptStep -> B) (name : string)
    (f : RunningScriptStep -> RunningScriptStep) (steps : list RunningScriptStep) :
  (forall s, g (f s) = g s) -> map g (update_first name f steps) = map g steps.
Proof.
  intros Hg. induction steps as [|s rest IH]; [done|]. cbn.
  destruct (String.eqb (rs_name s) name); cbn; by rewrite ?Hg, ?IH.
Qed.

Lemma start_step_statuses (io : WriteIO) (now : nat) (jr : JobResult) (fs : ResultStore)
    (jr' : JobResult) (fs' : ResultStore) :
  start_step io now jr fs = Ok (jr', fs') ->
  map rs_status (jr_steps jr') = map rs_status (jr_steps jr).
Proof.
  unfold start_step, job_result_save.
  destruct (get_current_step jr), (jr_current_step_name jr) as [name|]; try discriminate.
  cbn. destruct (jr_dry_run jr); [|destruct (io _ fs)];
    intros [= <- _]; cbn; by apply update_first_map.
Qed.

End StepFacts.

(** The status a step is materialised with is [Failed], and the status type
    has no [Pending] variant: every status is terminal. *)
Lemma materialised_status_counterexample :
  (forall st : ScriptStatus, st = Success \/ st = Failed \/ st = Aborted) /\
  match job_result_try_from {| ids_file := ""; result_files := ∅ |}
          {| job_id := "j"; job_name := "j"; job_parameters := []; job_triggers := [];
             job_script_id := "s"; job_read_only := false |}
          {| script_id := "s"; script_name := "s"; script_parameters := [];
             script_steps := [{| step_name := "build"; step_values := [] |}] |} true 0 with
  | Some (Ok (jr, _)) => map rs_status (jr_steps jr) = [Failed]
  | _ => False
  end.
Proof.
  split; [intros []; auto|]. reflexivity.
Qed.

(** C5 (amended). When a job result is constructed for a run, the script's
    steps are materialised in order as running steps with status [Failed]
    (the [Default]; there is no [Pending] status) and no start or finish
    time.  [start] and [start_step] leave every status unchanged, and
    [finish] is the operation that sets a status, together with the finish
    time. *)
Theorem materialised_steps_lifecycle (ids : IdState) (job : Job) (script : Script)
    (dry_mode : bool) (now : nat) (jr : JobResult) (ids' : IdState)
    (H : job_result_try_from ids job script dry_mode now = Some (Ok (jr, ids'))) :
  map rs_name (jr_steps jr) = map step_name (script_steps script) /\
  Forall (fun s => rs_status s = Failed /\ rs_started_at s = None /\ rs_finished_at s = None)
         (jr_steps jr) /\
  (forall t s, rs_status (step_start t s) = rs_status s) /\
  (forall st t s, rs_status (step_finish st t s) = st /\ rs_finished_at (step_finish st t s) = Some t) /\
  (forall io t (j j' : JobResult) fs fs', start_step io t j fs = Ok (j', fs') ->
     map rs_status (jr_steps j') = map rs_status (jr_steps j)).
Proof.
  assert (Hsteps : jr_steps jr = map running_step_from (script_steps script)).
  { unfold job_result_try_from in H.
    destruct (if negb dry_mode then _ else _) as [ids0 id| | |]; try discriminate.
    injection H as <- _. reflexivity. }
  rewrite Hsteps. split; [|split; [|split; [|split]]].
  - rewrite map_map. reflexivity.
  - apply Forall_forall. intros s Hs. apply list_elem_of_In, in_map_iff in Hs as (x & <- & _).
    done.
  - done.
  - done.
  - intros io t j j' fs fs'. apply start_step_statuses.
Qed.

Lemma materialised_steps_lifecycle_witness :
  job_result_try_from {| ids_file := ""; result_files := ∅ |}
    {| job_id := "j"; job_name := "j"; job_parameters := []; job_triggers := [];
       job_script_id := "s"; job_read_only := false |}
    {| script_id := "s"; script_name := "s"; script_parameters := [];
       script_steps := [{| step_name := "build"; step_values := [] |}] |} true 0
  = Some (Ok (job_result_new "dry_run" "j"
                [running_step_from {| step_name := "build"; step_values := [] |}] true 0,
              {| ids_file := ""; result_files := ∅ |})) /\
  map rs_name [running_step_from {| step_name := "build"; step_values := [] |}] = ["build"].
Proof.
  refine (conj eq_refl
            (proj1 (materialised_steps_lifecycle {| ids_file := ""; result_files := ∅ |}
               {| job_id := "j"; job_name := "j"; job_parameters := []; job_triggers := [];
                  job_script_id := "s"; job_read_only := false |}
               {| script_id := "s"; script_name := "s"; script_parameters := [];
                  script_steps := [{| step_name := "build"; step_values := [] |}] |}
               true 0 _ _ eq_refl))).
Defined.

(** ** Facts about dry runs *)

Section DryFacts.

Lemma lookup_map {A B : Type} (f : A -> B) (l : list A) (i : nat) :
  map f l !! i = option_map f (l !! i).
Proof. revert i. induction l as [|x l IH]; intros [|i]; cbn; auto. Qed.

Lemma key_name_in (steps : list RunningScriptStep) (i : nat) (n : string)
    (v : list ScriptType) :
  map step_key steps !! i = Some (n, v) -> n ∈ map rs_name steps.
Proof.
  rewrite lookup_map. destruct (steps !! i) as [x|] eqn:Hx; [|done].
  intros [= Hn _]. rewrite <- Hn. apply list_elem_of_In, in_map, list_elem_of_In.
  by apply list_elem_of_lookup_2 with i.
Qed.

Lemma find_step_key (steps : list RunningScriptStep) (i : nat) (n : string)
    (v : list ScriptType) :
  NoDup (map rs_name steps) -> map step_key steps !! i = Some (n, v) ->
  exists s, find_step n steps = Some s /\ step_key s = (n, v).
Proof.
  revert i. induction steps as [|s rest IH]; intros i Hnd Hi; [done|].
  cbn in Hnd. apply NoDup_cons in Hnd as [Hni Hnd].
  destruct i as [|i]; cbn in Hi.
  - injection Hi as Hn Hv. exists s. unfold find_step. cbn.
    rewrite Hn, String.eqb_refl. split; [done|]. unfold step_key. by rewrite Hn, Hv.
  - unfold find_step. cbn. destruct (String.eqb_spec (rs_name s) n) as [Heq|].
    + exfalso. apply Hni. rewrite Heq. by apply key_name_in with i v.
    + by apply IH with i.
Qed.

Lemma step_position_key (steps : list RunningScriptStep) (i : nat) (n : string)
    (v : list ScriptType) :
  NoDup (map rs_name steps) -> map step_key steps !! i = Some (n, v) ->
  step_position n steps = Some i.
Proof.
  revert i. induction steps as [|s rest IH]; intros i Hnd Hi; [done|].
  cbn in Hnd. apply NoDup_cons in Hnd as [Hni Hnd].
  destruct i as [|i]; cbn in Hi.
  - injection Hi as Hn _. cbn. by rewrite Hn, String.eqb_refl.
  - cbn. destruct (String.eqb_spec (rs_name s) n) as [Heq|].
    + exfalso. apply Hni. rewrite Heq. by apply key_name_in with i v.
    + by rewrite (IH i Hnd Hi).
Qed.

Lemma names_of_keys (steps : list RunningScriptStep) :
  map rs_name steps = map fst (map step_key steps).
Proof. rewrite map_map. reflexivity. Qed.

Variable io : WriteIO.
Variable now : nat.
Variable exec_value : ScriptType -> JobResult -> Params -> ResultStore ->
                      result unit string * Params * JobResult * ResultStore.
Variable exec_dry : ScriptType -> Params -> result unit string * Params.
Hypothesis exec_value_dry : forall v jr p fs, jr_dry_run jr = true ->
  exec_value v jr p fs = ((exec_dry v p).1, (exec_dry v p).2, jr, fs).

Lemma run_values_dry_eq (values : list ScriptType) (jr : JobResult) (p : Params)
    (fs : ResultStore) :
  jr_dry_run jr = true ->
  run_values exec_value values jr p fs =
    ((run_values_dry exec_dry values p).1, (run_values_dry exec_dry values p).2, jr, fs).
Proof.
  intros Hd. revert p. induction values as [|v rest IH]; intros p; [done|].
  cbn. rewrite (exec_value_dry v jr p fs Hd).
  destruct (exec_dry v p) as [[] p']; cbn; [apply IH|done].
Qed.

Lemma length_update_first (name : string) (f : RunningScriptStep -> RunningScriptStep)
    (steps : list RunningScriptStep) :
  length (update_first name f steps) = length steps.
Proof.
  induction steps as [|s rest IH]; [done|]. cbn.
  destruct (String.eqb (rs_name s) name); cbn; by rewrite ?IH.
Qed.

Lemma start_step_dry (jr : JobResult) (fs : ResultStore) (n : string) (s0 : RunningScriptStep) :
  jr_dry_run jr = true -> jr_current_step_name jr = Some n ->
  find_step n (jr_steps jr) = Some s0 ->
  start_step io now jr fs = Ok (with_steps (update_first n (step_start now) (jr_steps jr)) jr, fs).
Proof.
  intros Hd Hc Hf. unfold start_step, get_current_step. rewrite Hc, Hf.
  unfold job_result_save. cbn. by rewrite Hd.
Qed.

Lemma finish_step_false_dry (jr : JobResult) (fs : ResultStore) (n : string)
    (s0 : RunningScriptStep) :
  jr_dry_run jr = true -> jr_current_step_name jr = Some n ->
  find_step n (jr_steps jr) = Some s0 ->
  exists jr', finish_step io false now jr fs = Ok (jr', fs) /\ jr_dry_run jr' = true.
Proof.
  intros Hd Hc Hf. unfold finish_step. rewrite Hc, Hf. cbn.
  unfold job_result_save. cbn. rewrite Hd. eexists. split; [reflexivity|]. exact Hd.
Qed.

Lemma finish_step_true_dry (jr : JobResult) (fs : ResultStore) (n : string)
    (s0 : RunningScriptStep) (i : nat) :
  jr_dry_run jr = true -> jr_current_step_name jr = Some n ->
  find_step n (jr_steps jr) = Some s0 ->
  step_position n (update_first n (step_finish Success now) (jr_steps jr)) = Some i ->
  exists jr', finish_step io true now jr fs = Ok (jr', fs) /\ jr_dry_run jr' = true /\
    jr_steps jr' = update_first n (step_finish Success now) (jr_steps jr) /\
    (if i + 1 <? length (jr_steps jr) then
       exists next, jr_steps jr' !! (i + 1) = Some next /\
         jr_current_step_name jr' = Some (rs_name next) /\ jr_finished_at jr' = jr_finished_at jr
     else jr_finished_at jr' = Some now).
Proof.
  intros Hd Hc Hf Hp. unfold finish_step. rewrite Hc, Hf. cbn [negb].
  cbn [with_steps jr_steps]. rewrite Hp, length_update_first.
  destruct (i + 1 <? length (jr_steps jr)) eqn:Hlt.
  - apply Nat.ltb_lt in Hlt.
    rewrite <- (length_update_first n (step_finish Success now)) in Hlt.
    destruct (lookup_lt_is_Some_2 _ _ Hlt) as [next Hnext]. rewrite Hnext.
    unfold job_result_save. cbn. rewrite Hd.
    eexists. split; [reflexivity|]. cbn. split; [exact Hd|]. split; [done|].
    exists next. done.
  - unfold job_result_save. cbn. rewrite Hd.
    eexists. split; [reflexivity|]. cbn. done.
Qed.

Lemma engine_loop_dry (steps : list ScriptStep) (rest : list ScriptStep) :
  NoDup (map step_name steps) ->
  forall s i jr p fs fuel,
  map step_key (jr_steps jr) = map script_step_key steps ->
  jr_dry_run jr = true -> jr_finished_at jr = None ->
  drop i steps = s :: rest ->
  jr_current_step_name jr = Some (step_name s) ->
  length (s :: rest) <= fuel ->
  exists jr' p',
    engine_loop io now exec_value fuel jr p fs =
      Done (match first_step_failure exec_dry (s :: rest) p with
            | Ok _ => Ok true
            | Err m => Err m
            end, jr', p', fs) /\ jr_dry_run jr' = true.
Proof.
  intros Hnd. induction rest as [|s' rest IH];
    intros s i jr p fs fuel Hkeys Hd Hfin Hdrop Hcur Hfuel;
    (destruct fuel as [|fuel]; [cbn in Hfuel; lia|]);
    (assert (Hi : map step_key (jr_steps jr) !! i = Some (step_name s, step_values s))
       by (rewrite Hkeys, lookup_map, <- (Nat.add_0_r i), <- lookup_drop, Hdrop;
           reflexivity));
    (assert (Hndk : NoDup (map rs_name (jr_steps jr)))
       by (rewrite names_of_keys, Hkeys, map_map; exact Hnd));
    destruct (find_step_key _ _ _ _ Hndk Hi) as (s0 & Hf0 & _);
    cbn [engine_loop]; rewrite Hfin;
    rewrite (start_step_dry jr fs _ s0 Hd Hcur Hf0);
    set (steps1 := update_first (step_name s) (step_start now) (jr_steps jr));
    set (jr1 := with_steps steps1 jr);
    (assert (Hk1 : map step_key (jr_steps jr1) = map step_key (jr_steps jr))
       by (apply update_first_map; reflexivity));
    (assert (Hnd1 : NoDup (map rs_name (jr_steps jr1)))
       by (rewrite names_of_keys, Hk1, <- names_of_keys; exact Hndk));
    (assert (Hi1 : map step_key (jr_steps jr1) !! i = Some (step_name s, step_values s))
       by (rewrite Hk1; exact Hi));
    (assert (Hd1 : jr_dry_run jr1 = true) by exact Hd);
    (assert (Hcur1 : jr_current_step_name jr1 = Some (step_name s)) by exact Hcur);
    destruct (find_step_key _ _ _ _ Hnd1 Hi1) as (s1 & Hf1 & Hk1');
    unfold get_current_step; rewrite Hcur1, Hf1;
    injection Hk1' as Hn1 Hv1;
    cbv beta iota zeta; rewrite Hn1, Hv1;
    rewrite (run_values_dry_eq _ _ _ _ Hd1);
    cbn [first_step_failure];
    destruct (run_values_dry exec_dry (step_values s) p) as [[] p'] eqn:Hrun;
    cbn [fst snd]; cbv beta iota zeta.
  - (* last step, its operations succeed *)
    set (steps2 := update_first (step_name s) (step_finish Success now) (jr_steps jr1)).
    assert (Hk2 : map step_key steps2 = map step_key (jr_steps jr1))
      by (apply update_first_map; reflexivity).
    assert (Hnd2 : NoDup (map rs_name steps2))
      by (rewrite names_of_keys, Hk2, <- names_of_keys; exact Hnd1).
    assert (Hi2 : map step_key steps2 !! i = Some (step_name s, step_values s))
      by (rewrite Hk2; exact Hi1).
    destruct (finish_step_true_dry jr1 fs _ s1 i Hd1 Hcur1 Hf1
                (step_position_key _ _ _ _ Hnd2 Hi2)) as (jr2 & -> & Hd2 & Hs2 & Hrest).
    assert (Hlen : length (jr_steps jr1) = S i).
    { rewrite <- (length_map step_key (jr_steps jr1)), Hk1, Hkeys, length_map.
      pose proof (f_equal length Hdrop) as E. rewrite length_drop in E. cbn in E.
      assert (i < length steps).
      { destruct (decide (i < length steps)); [done|].
        rewrite drop_ge in Hdrop by lia. discriminate. }
      lia. }
    rewrite Hlen in Hrest. replace (i + 1 <? S i) with false in Hrest by (symmetry; apply Nat.ltb_ge; lia).
    destruct fuel; cbn [engine_loop]; rewrite Hrest; (eexists _, _; split; [reflexivity|exact Hd2]).
  - (* last step, an operation fails *)
    destruct (finish_step_false_dry _ fs _ s1 Hd1 Hcur1 Hf1) as (jr2 & -> & Hd2).
    rewrite Hd2. eexists _, _. split; [reflexivity|exact Hd2].
  - (* a further step follows *)
    set (steps2 := update_first (step_name s) (step_finish Success now) (jr_steps jr1)).
    assert (Hk2 : map step_key steps2 = map step_key (jr_steps jr1))
      by (apply update_first_map; reflexivity).
    assert (Hnd2 : NoDup (map rs_name steps2))
      by (rewrite names_of_keys, Hk2, <- names_of_keys; exact Hnd1).
    assert (Hi2 : map step_key steps2 !! i = Some (step_name s, step_values s))
      by (rewrite Hk2; exact Hi1).
    destruct (finish_step_true_dry jr1 fs _ s1 i Hd1 Hcur1 Hf1
                (step_position_key _ _ _ _ Hnd2 Hi2)) as (jr2 & -> & Hd2 & Hs2 & Hrest).
    assert (Hdrop' : drop (i + 1) steps = s' :: rest)
      by (rewrite <- drop_drop, Hdrop; reflexivity).
    assert (Hnext : map step_key (jr_steps jr2) !! (i + 1) = Some (step_name s', step_values s'))
      by (rewrite Hs2; fold steps2; rewrite Hk2, Hk1, Hkeys, lookup_map,
            <- (Nat.add_0_r (i + 1)), <- lookup_drop, Hdrop'; reflexivity).
    assert (Hlt : i + 1 < length (jr_steps jr1)).
    { rewrite <- (length_update_first (step_name s) (step_finish Success now)).
      rewrite <- Hs2. apply lookup_lt_is_Some_1.
      rewrite lookup_map in Hnext. destruct (jr_steps jr2 !! (i + 1)); [by eexists|done]. }
    apply Nat.ltb_lt in Hlt. rewrite Hlt in Hrest.
    destruct Hrest as (next & Hnx & Hcur2 & Hfin2).
    rewrite lookup_map, Hnx in Hnext. injection Hnext as Hn2 _.
    apply (IH s' (i + 1)); try done.
    + rewrite Hs2. fold steps2. rewrite Hk2, Hk1. exact Hkeys.
    + rewrite Hfin2. exact Hfin.
    + by rewrite Hcur2, Hn2.
    + cbn in Hfuel |- *. lia.
  - (* an operation of this step fails *)
    destruct (finish_step_false_dry _ fs _ s1 Hd1 Hcur1 Hf1) as (jr2 & -> & Hd2).
    rewrite Hd2. eexists _, _. split; [reflexivity|exact Hd2].
Qed.

End DryFacts.

(** C6. Dry runs.  Assume that an operation run on a dry-run job result
    ([exec_value_dry]) changes neither the job result nor the results
    directory, its outcome and parameters being those of [exec_dry].  Then
    for a script with steps of distinct names: the dry-run job result gets
    the id ["dry_run"] without touching the id counter; saving a dry-run
    job result is a no-op; and [validate] leaves the results directory
    unchanged and returns the first failure of an operation as
    ["Error in step <name>: <err>"], or [Ok] when no operation fails. *)
Theorem dry_run_purity (io : WriteIO) (now : nat)
    (exec_value : ScriptType -> JobResult -> Params -> ResultStore ->
                  result unit string * Params * JobResult * ResultStore)
    (exec_dry : ScriptType -> Params -> result unit string * Params)
    (exec_value_dry : forall v jr p fs, jr_dry_run jr = true ->
       exec_value v jr p fs = ((exec_dry v p).1, (exec_dry v p).2, jr, fs))
    (ids : IdState) (job : Job) (script : Script) (scripts : ScriptStore)
    (provided : Params) (fs : ResultStore)
    (Hnd : NoDup (map step_name (script_steps script)))
    (Hne : script_steps script <> []) :
  job_result_try_from ids job script true now =
    Some (Ok (job_result_new "dry_run" (job_id job)
                (map running_step_from (script_steps script)) true now, ids)) /\
  (forall jr fs', jr_dry_run jr = true -> job_result_save io jr fs' = Ok fs') /\
  validate io now exec_value ids job script scripts provided fs =
    Some (Done (match merged_parameters job (Some script) scripts provided with
                | Err e => Err e
                | Ok merged => first_step_failure exec_dry (script_steps script) merged
                end, fs)).
Proof.
  split; [reflexivity|]. split.
  { intros jr fs' Hd. unfold job_result_save. by rewrite Hd. }
  unfold validate. destruct (merged_parameters job (Some script) scripts provided)
    as [merged|e]; [|reflexivity].
  cbn [job_result_try_from negb].
  unfold execute_job_result_internal.
  destruct (script_steps script) as [|s rest] eqn:Hsteps; [done|].
  edestruct (engine_loop_dry io now exec_value exec_dry exec_value_dry (s :: rest) rest Hnd
               s 0 (job_result_new "dry_run" (job_id job)
                      (map running_step_from (s :: rest)) true now)
               merged fs (S (length (s :: rest))))
    as (jr' & p' & Hloop & Hd'); try reflexivity.
  - cbn [job_result_new jr_steps]. rewrite map_map. reflexivity.
  - cbn. lia.
  - rewrite Hloop. destruct (first_step_failure exec_dry (s :: rest) merged) as [[]|]; [|reflexivity].
    unfold job_result_save. cbn. by rewrite Hd'.
Qed.

Lemma dry_run_purity_witness :
  validate writes_succeed 0 sample_exec_value {| ids_file := ""; result_files := ∅ |}
    {| job_id := "j"; job_name := "j"; job_parameters := []; job_triggers := [];
       job_script_id := "s"; job_read_only := false |}
    {| script_id := "s"; script_name := "s"; script_parameters := [];
       script_steps := [{| step_name := "build"; step_values := [Bash "true"] |};
                        {| step_name := "test"; step_values := [Bash "false"] |}] |}
    ∅ ∅ ∅
  = Some (Done (Err "Error in step test: Process exited with status: exit status: 1", ∅)).
Proof.
  refine (eq_trans (proj2 (proj2 (dry_run_purity writes_succeed 0 sample_exec_value sample_exec_dry
            (fun _ _ _ _ _ => eq_refl) {| ids_file := ""; result_files := ∅ |}
            {| job_id := "j"; job_name := "j"; job_parameters := []; job_triggers := [];
               job_script_id := "s"; job_read_only := false |}
            {| script_id := "s"; script_name := "s"; script_parameters := [];
               script_steps := [{| step_name := "build"; step_values := [Bash "true"] |};
                                {| step_name := "test"; step_values := [Bash "false"] |}] |}
            ∅ ∅ ∅ _ _))) _).
  - cbn. repeat constructor; set_solver.
  - discriminate.
  - vm_compute. reflexivity.
Defined.

(** C7 (code bug).  [get_process_recursive] collects only the descendants
    of the pid it is given, never the pid itself, and the observer signals
    exactly the pids of that list.  So with a recorded pid 10 whose child is
    11, the cleanup signals 11 and never signals the recorded root 10. *)
Theorem abort_cleanup_skips_root (fuel : nat) :
  let table : ProcessTable := [(1, None); (10, Some 1); (11, Some 10)] in
  get_process_recursive (2 + fuel) table 10 = Done [11] /\
  kill_sequence (2 + fuel) table [10] = Done [11] /\
  ~ In 10 [11].
Proof.
  cbn. destruct fuel; (split; [reflexivity|]); (split; [reflexivity|]); intros [H|[]]; discriminate.
Qed.

(** C8 (code bug).  When [child.wait()] fails, [execute_script] returns an
    error with the pid still the last entry of [child_process_ids], whether
    or not the save after the push succeeded; when that save succeeds, the
    error is the one of [child.wait()].  Only on completion, successful or
    not, is the pid removed again (the save having succeeded). *)
Theorem wait_failure_keeps_pid (io : WriteIO) (pid : nat) (jr : JobResult) (fs : ResultStore)
    (e : string) :
  let jr1 := with_child_process_ids (jr_child_process_ids jr ++ [pid]) jr in
  (exists e' fs',
     execute_script io pid true true (Err e) jr fs = (Err e', jr1, fs') /\
     (io jr1 fs = None -> e' = e)) /\
  (io jr1 fs = None ->
   forall status,
     jr_child_process_ids (execute_script io pid true true (Ok status) jr fs).1.2 =
       jr_child_process_ids jr).
Proof.
  intros jr1. unfold execute_script, job_result_save. fold jr1. cbn.
  split.
  - destruct (jr_dry_run jr); [eexists _, _; split; [reflexivity|done]|].
    destruct (io jr1 fs) as [e'|]; (eexists _, _; split; [reflexivity|]); done.
  - intros Hio status. rewrite Hio.
    destruct (jr_dry_run jr), (status_success status); cbn; apply removelast_last.
Qed.

(** * Further properties of the code *)

(** ** Parameter substitution *)

Section SubstFacts.

Lemma find_char_drop_none (c : ascii) (n : nat) (s : string) :
  find_char c s = None -> find_char c (str_drop n s) = None.
Proof.
  revert s. induction n as [|n IH]; intros s H; [done|].
  destruct s as [|a s]; [done|]. cbn in H |- *.
  destruct (Ascii.eqb a c); [discriminate|].
  apply IH. destruct (find_char c s); [discriminate|done].
Qed.

Lemma substitute_loop_no_token (fuel : nat) (p : Params) (o : bool) (s : string) :
  find_str "$(" s = None -> substitute_loop fuel p o s = Done (Ok (Some (Single s))).
Proof. intros H. destruct fuel; cbn [substitute_loop]; by rewrite H. Qed.

(** Every [Done] outcome of a round that finds a [$(] either stops there
    or is the outcome of the loop on the replaced text. *)
Lemma substitute_loop_step (fuel : nat) (p : Params) (o : bool) (s : string)
    (out : SubstResult) (start : nat) :
  find_str "$(" s = Some start ->
  substitute_loop (S fuel) p o s = Done out ->
  out = Err "Missing closing bracket ')'" \/
  (exists k, p !! k = None /\
     (out = Ok None /\ o = true \/ out = Err ("Parameter '" +:+ k +:+ "' not found"))) \/
  (exists k arr, p !! k = Some (StringArray arr) /\ out = Ok (Some (Multiple arr))) \/
  (exists s', substitute_loop fuel p o s' = Done out).
Proof.
  intros Hf H. cbn [substitute_loop] in H. rewrite Hf in H.
  destruct (find_char _ _) as [end_|]; [|left; congruence].
  cbv zeta in H.
  destruct (p !! _) as [v|] eqn:Hv.
  - destruct v as [| | | | |arr];
      try (right; right; right; eexists; exact H).
    destruct (_ && _).
    + right; right; left. exists (str_take (end_ - 2) (str_drop 2 (str_drop start s))), arr.
      split; [exact Hv|congruence].
    + right; right; right; eexists; exact H.
  - right; left. eexists. split; [exact Hv|].
    destruct o; cbn [andb] in H;
      [destruct (_ && _); [left; split; congruence | right; congruence] | right; congruence].
Qed.

End SubstFacts.

(** The [Single] text that substitution returns contains no [$(] any more,
    so substituting it again, with any fuel, returns it unchanged. *)
Theorem substitute_single_stable (fuel fuel' : nat) (s r : string) (p : Params)
    (optional : bool) :
  substitute_parameters fuel s p optional = Done (Ok (Some (Single r))) ->
  find_str "$(" r = None /\
  substitute_parameters fuel' r p optional = Done (Ok (Some (Single r))).
Proof.
  unfold substitute_parameters. intros H.
  assert (Hr : find_str "$(" r = None).
  { revert s H. induction fuel as [|fuel IH]; intros s H.
    - cbn [substitute_loop] in H. destruct (find_str "$(" s) eqn:Hf; [discriminate|].
      congruence.
    - destruct (find_str "$(" s) as [start|] eqn:Hf.
      + destruct (substitute_loop_step _ _ _ _ _ _ Hf H)
          as [?|[(k & _ & [[? _]|?])|[(k & arr & _ & ?)|(s' & Hs')]]]; try discriminate.
        exact (IH _ Hs').
      + rewrite substitute_loop_no_token in H by exact Hf. congruence. }
  split; [exact Hr|]. by apply substitute_loop_no_token.
Qed.

Lemma substitute_single_stable_witness :
  find_str "$(" "v1_12" = None /\
  substitute_parameters 0 "v1_12" (<["a" := String_ "v1"]> (<["b.c" := Number 12]> ∅)) false
    = Done (Ok (Some (Single "v1_12"))).
Proof.
  apply (substitute_single_stable 5 0 "$(a)_$(b.c)" "v1_12"
           (<["a" := String_ "v1"]> (<["b.c" := Number 12]> ∅)) false).
  vm_compute. reflexivity.
Defined.

(** A text that contains [$(] but no [)] at all fails with
    ["Missing closing bracket ')'"], whatever the parameters. *)
Theorem substitute_unclosed (fuel : nat) (s : string) (p : Params) (optional : bool)
    (start : nat) :
  find_str "$(" s = Some start -> find_char ")" s = None ->
  substitute_parameters (S fuel) s p optional = Done (Err "Missing closing bracket ')'").
Proof.
  intros Hf Hc. unfold substitute_parameters. cbn [substitute_loop]. rewrite Hf.
  by rewrite (find_char_drop_none _ start _ Hc).
Qed.

Lemma substitute_unclosed_witness :
  find_str "$(" "echo $(name" = Some 5 /\ find_char ")" "echo $(name" = None /\
  substitute_parameters 1 "echo $(name" (<["name" := String_ "x"]> ∅) false
    = Done (Err "Missing closing bracket ')'").
Proof.
  split; [reflexivity|]. split; [reflexivity|].
  apply (substitute_unclosed 0 "echo $(name" (<["name" := String_ "x"]> ∅) false 5);
    reflexivity.
Defined.

(** Without [optional], substitution never returns [Ok(None)]: the
    [replaced_code.is_none()] branch of the bash operation is never taken. *)
Theorem substitute_required_never_none (fuel : nat) (s : string) (p : Params) :
  substitute_parameters fuel s p false <> Done (Ok None).
Proof.
  unfold substitute_parameters. revert s. induction fuel as [|fuel IH]; intros s H.
  - cbn [substitute_loop] in H. destruct (find_str "$(" s); discriminate.
  - destruct (find_str "$(" s) as [start|] eqn:Hf.
    + destruct (substitute_loop_step _ _ _ _ _ _ Hf H)
        as [?|[(k & _ & [[_ ?]|?])|[(k & arr & _ & ?)|(s' & Hs')]]]; try discriminate.
      exact (IH _ Hs').
    + rewrite substitute_loop_no_token in H by exact Hf. discriminate.
Qed.

(** A [Multiple] result is always the array value of some parameter. *)
Theorem substitute_multiple_source (fuel : nat) (s : string) (p : Params) (optional : bool)
    (arr : list string) :
  substitute_parameters fuel s p optional = Done (Ok (Some (Multiple arr))) ->
  exists k, p !! k = Some (StringArray arr).
Proof.
  unfold substitute_parameters. revert s. induction fuel as [|fuel IH]; intros s H.
  - cbn [substitute_loop] in H. destruct (find_str "$(" s); discriminate.
  - destruct (find_str "$(" s) as [start|] eqn:Hf.
    + destruct (substitute_loop_step _ _ _ _ _ _ Hf H)
        as [?|[(k & _ & [[? _]|?])|[(k & arr' & Hk & Ha)|(s' & Hs')]]]; try discriminate.
      * exists k. injection Ha as ->. exact Hk.
      * exact (IH _ Hs').
    + rewrite substitute_loop_no_token in H by exact Hf. discriminate.
Qed.

Lemma substitute_multiple_source_witness :
  exists k, (<["x" := StringArray ["a"; "b"]]> ∅ : Params) !! k = Some (StringArray ["a"; "b"]).
Proof.
  apply (substitute_multiple_source 1 "$(x)" (<["x" := StringArray ["a"; "b"]]> ∅) false).
  vm_compute. reflexivity.
Defined.

(** ** The bash operation in a dry run *)

Lemma bash_lines_dry (St : Type) (exec exec' : string -> St -> result St string)
    (orig : list string) (i : nat) (lines : list string) (st : St) (logs : list string) :
  bash_lines St exec orig i lines true st logs = bash_lines St exec' orig i lines true st logs /\
  forall r logs', bash_lines St exec orig i lines true st logs = BashDone (Ok r) logs' -> r = st.
Proof.
  revert i logs. induction lines as [|l rest IH]; intros i logs; cbn [bash_lines].
  - split; [done|]. intros r logs' H. congruence.
  - destruct l as [|c l]; [apply IH|].
    destruct (orig !! i); [apply IH|]. split; [done|]. intros r logs' H. discriminate.
Qed.

(** In a dry run the bash operation never runs a command: its outcome does
    not depend on [execute_command], and when it succeeds the state is the
    one it was given. *)
Theorem bash_dry_run_runs_nothing (St : Type) (exec exec' : string -> St -> result St string)
    (fuel : nat) (code : string) (p : Params) (st : St) :
  bash_execute St exec fuel code p true st = bash_execute St exec' fuel code p true st /\
  forall r logs, bash_execute St exec fuel code p true st = BashDone (Ok r) logs -> r = st.
Proof.
  unfold bash_execute.
  destruct (substitute_parameters fuel code p false) as [[[[rc|]|]|e]|].
  - apply bash_lines_dry.
  - split; [done|]. intros r logs H. discriminate.
  - split; [done|]. intros r logs H. congruence.
  - split; [done|]. intros r logs H. discriminate.
  - split; [done|]. intros r logs H. discriminate.
Qed.

(** ** Parameter merging and validation *)

Section MergeKeys.

Lemma merge_fold_keys (job : Job) (provided : Params) (l : list ScriptParameter) (m : Params) :
  exists m', fold_left (merge_step job provided) l (Ok m) = Ok m' /\
    forall k, is_Some (m' !! k) <->
      is_Some (m !! k) \/
      exists sp, sp ∈ l /\ k = parameter_key (sp_name sp) /\ is_Some (resolved job sp provided).
Proof.
  revert m. induction l as [|x l IH]; intros m; cbn [fold_left].
  - exists m. split; [done|]. intros k. split; [by left|].
    intros [H|(sp & Hin & _)]; [done|by apply not_elem_of_nil in Hin].
  - rewrite merge_step_ok.
    destruct (IH (match resolved job x provided with
                  | Some v => <[parameter_key (sp_name x) := v]> m | None => m end))
      as (m' & Hf & Hk).
    exists m'. split; [exact Hf|]. intros k. rewrite Hk. split.
    + intros [H|(sp & Hin & Hk' & Hr)].
      * destruct (resolved job x provided) as [v|] eqn:Hx; [|by left].
        destruct (decide (k = parameter_key (sp_name x))) as [->|Hne].
        -- right. exists x. split; [apply elem_of_cons; by left|]. rewrite Hx. done.
        -- left. by rewrite lookup_insert_ne in H by congruence.
      * right. exists sp. split; [apply elem_of_cons; by right|done].
    + intros [H|(sp & Hin & Hk' & Hr)].
      * left. destruct (resolved job x provided); [|done].
        destruct (decide (k = parameter_key (sp_name x))) as [->|Hne];
          [by rewrite lookup_insert_eq|by rewrite lookup_insert_ne by congruence].
      * apply elem_of_cons in Hin as [->|Hin].
        -- left. destruct (resolved job x provided); [|by destruct Hr].
           subst k. by rewrite lookup_insert_eq.
        -- right. exists sp. done.
Qed.

Lemma merge_fold_uniform (job : Job) (provided : Params) (l : list ScriptParameter)
    (m : Params) (f : string -> option ScriptParameterType) :
  (forall sp, sp ∈ l -> resolved job sp provided = f (sp_name sp)) ->
  exists m', fold_left (merge_step job provided) l (Ok m) = Ok m' /\
    forall n, m' !! parameter_key n =
      if bool_decide (n ∈ map sp_name l) then
        match f n with Some v => Some v | None => m !! parameter_key n end
      else m !! parameter_key n.
Proof.
  revert m. induction l as [|x l IH]; intros m Hu; cbn [fold_left].
  - exists m. split; [done|]. intros n. reflexivity.
  - rewrite merge_step_ok.
    destruct (IH (match resolved job x provided with
                  | Some v => <[parameter_key (sp_name x) := v]> m | None => m end))
      as (m' & Hf & Hk); [intros sp Hsp; apply Hu; apply elem_of_cons; by right|].
    exists m'. split; [exact Hf|]. intros n. rewrite Hk.
    rewrite (Hu x) by (apply elem_of_cons; by left).
    assert (Hx : sp_name x = n -> n ∈ map sp_name (x :: l))
      by (intros <-; apply elem_of_cons; by left).
    cbn [map].
    destruct (decide (sp_name x = n)) as [Heq|Hne].
    + subst n. rewrite (bool_decide_eq_true_2 (sp_name x ∈ sp_name x :: map sp_name l))
        by (apply elem_of_cons; by left).
      destruct (f (sp_name x)) as [v|] eqn:Hfv.
      * destruct (bool_decide _); [done|]. by rewrite lookup_insert_eq.
      * destruct (bool_decide _); done.
    + assert (Hkn : parameter_key (sp_name x) <> parameter_key n)
        by (intros Hk'; apply Hne; unfold parameter_key in Hk'; by apply str_app_inj_l in Hk').
      assert (Hin : bool_decide (n ∈ sp_name x :: map sp_name l) =
                    bool_decide (n ∈ map sp_name l)).
      { apply bool_decide_ext. rewrite elem_of_cons. split; [|by right].
        intros [->|H]; [done|exact H]. }
      rewrite Hin.
      destruct (f (sp_name x)) as [v|];
        [rewrite !(lookup_insert_ne _ _ _ _ Hkn)|]; reflexivity.
Qed.

End MergeKeys.

(** When the script is given, [merged_parameters] never fails, and its
    result has exactly the keys ["parameters.<name>"] of the script
    parameters whose value resolves to something. *)
Theorem merged_parameters_keys (job : Job) (script : Script) (scripts : ScriptStore)
    (provided : Params) :
  exists m, merged_parameters job (Some script) scripts provided = Ok m /\
    forall k, is_Some (m !! k) <->
      exists sp, sp ∈ script_parameters script /\ k = parameter_key (sp_name sp) /\
                 is_Some (resolved job sp provided).
Proof.
  destruct (merge_fold_keys job provided (script_parameters script) ∅) as (m & Hf & Hk).
  exists m. split; [exact Hf|]. intros k. rewrite Hk. rewrite lookup_empty. split.
  - intros [H|H]; [by destruct H|exact H].
  - by right.
Qed.

(** A job whose script is neither given nor found fails with
    ["Script not found: <script_id>"] in [validate_parameters],
    [merged_parameters] and [Job::validate], the last leaving the results
    directory as it was. *)
Theorem missing_script_errors (job : Job) (scripts : ScriptStore) (provided : Params)
    (io : WriteIO) (now : nat)
    (exec_value : ScriptType -> JobResult -> Params -> ResultStore ->
                  result unit string * Params * JobResult * ResultStore)
    (ids : IdState) (fs : ResultStore) :
  scripts !! job_script_id job = None ->
  validate_parameters job None scripts = Err ("Script not found: " +:+ job_script_id job) /\
  merged_parameters job None scripts provided = Err ("Script not found: " +:+ job_script_id job) /\
  job_validate io now exec_value ids job None scripts provided fs
    = Some (Done (Err ("Script not found: " +:+ job_script_id job), fs)).
Proof.
  intros H. unfold job_validate, validate_parameters, merged_parameters, get_script.
  rewrite H. done.
Qed.

Lemma missing_script_errors_witness :
  validate_parameters
    {| job_id := "j"; job_name := "j"; job_parameters := []; job_triggers := [Manual];
       job_script_id := "build"; job_read_only := false |} None ∅
    = Err ("Script not found: " +:+ "build") /\
  merged_parameters
    {| job_id := "j"; job_name := "j"; job_parameters := []; job_triggers := [Manual];
       job_script_id := "build"; job_read_only := false |} None ∅ ∅
    = Err ("Script not found: " +:+ "build") /\
  job_validate writes_succeed 0 sample_exec_value {| ids_file := ""; result_files := ∅ |}
    {| job_id := "j"; job_name := "j"; job_parameters := []; job_triggers := [Manual];
       job_script_id := "build"; job_read_only := false |} None ∅ ∅ ∅
    = Some (Done (Err ("Script not found: " +:+ "build"), ∅)).
Proof.
  apply (missing_script_errors
    {| job_id := "j"; job_name := "j"; job_parameters := []; job_triggers := [Manual];
       job_script_id := "build"; job_read_only := false |} ∅ ∅ writes_succeed 0 sample_exec_value
    {| ids_file := ""; result_files := ∅ |} ∅).
  reflexivity.
Defined.

(** The job [From<&Script>] builds always passes [validate_parameters]
    against its script, and [merged_parameters] gives for every name of a
    script parameter the caller's value, else the default of the first
    script parameter of that name (no entry when it has none), and no entry
    for any other name. *)
Theorem job_from_script_parameters (script : Script) (scripts : ScriptStore)
    (provided : Params) :
  validate_parameters (job_from_script script) (Some script) scripts = Ok tt /\
  exists m, merged_parameters (job_from_script script) (Some script) scripts provided = Ok m /\
    forall n, m !! parameter_key n =
      match List.find (fun q => String.eqb (sp_name q) n) (script_parameters script) with
      | None => None
      | Some sp1 =>
          match provided !! n with
          | Some v => Some v
          | None => sp_default sp1
          end
      end.
Proof.
  set (l := script_parameters script).
  assert (Hfind : forall n, List.find (fun p => String.eqb (jp_name p) n)
                              (job_parameters (job_from_script script)) =
            option_map (fun p => {| jp_name := sp_name p; jp_default := sp_default p |})
              (List.find (fun q => String.eqb (sp_name q) n) l)).
  { intros n. cbn [job_parameters job_from_script]. fold l.
    induction l as [|x l' IH]; [done|]. cbn. destruct (String.eqb (sp_name x) n); done. }
  split.
  - unfold validate_parameters, get_script. fold l.
    enough (Hc : forall acc, fold_left
        (fun missing_parameters parameter =>
           if negb (existsb (fun p => String.eqb (jp_name p) (sp_name parameter))
                      (job_parameters (job_from_script script)))
              && match sp_default parameter with None => true | Some _ => false end
              && sp_required parameter
           then missing_parameters ++ [sp_name parameter] else missing_parameters)
        l acc = acc) by (unfold collect_missing; rewrite Hc; done).
    intros acc. assert (Hsub : forall x, x ∈ l -> existsb (fun p => String.eqb (jp_name p) (sp_name x))
                              (job_parameters (job_from_script script)) = true).
    { intros x Hx. apply existsb_exists. exists {| jp_name := sp_name x; jp_default := sp_default x |}.
      split; [|cbn; apply String.eqb_refl].
      cbn [job_parameters job_from_script]. fold l. apply in_map_iff. exists x.
      split; [done|]. by apply list_elem_of_In. }
    clear Hfind. clearbody l. revert Hsub. induction l as [|x l' IH]; intros Hsub; [done|]. cbn [fold_left].
    rewrite Hsub by (apply elem_of_cons; by left). cbn [negb andb].
    apply IH. intros y Hy. apply Hsub. apply elem_of_cons. by right.
  - set (f := fun n => match List.find (fun q => String.eqb (sp_name q) n) l with
                       | None => None
                       | Some sp1 => match provided !! n with
                                     | Some v => Some v | None => sp_default sp1 end
                       end).
    destruct (merge_fold_uniform (job_from_script script) provided l ∅ f) as (m & Hf & Hk).
    { intros sp Hsp. unfold resolved, resolve_parameter_value. rewrite Hfind.
      unfold f. destruct (List.find _ l) as [sp1|] eqn:Hsp1; cbn [option_map jp_name jp_default].
      - apply find_some in Hsp1 as [_ Hn]. apply String.eqb_eq in Hn. rewrite Hn. done.
      - exfalso. apply list_elem_of_In in Hsp.
        pose proof (find_none _ _ Hsp1 sp Hsp) as Hn. cbn in Hn.
        by rewrite String.eqb_refl in Hn. }
    exists m. split; [exact Hf|]. intros n. rewrite Hk. fold (f n). rewrite lookup_empty.
    destruct (bool_decide (n ∈ map sp_name l)) eqn:Hb.
    + destruct (f n); done.
    + apply bool_decide_eq_false in Hb. unfold f.
      destruct (List.find _ l) as [sp1|] eqn:Hsp1; [|done].
      exfalso. apply Hb. apply find_some in Hsp1 as [Hin Hn]. apply String.eqb_eq in Hn.
      rewrite <- Hn. apply list_elem_of_In, in_map, Hin.
Qed.

(** ** Steps of a job result *)

Section StepUpdate.

Lemma find_step_update_first (n : string) (f : RunningScriptStep -> RunningScriptStep)
    (l : list RunningScriptStep) :
  (forall s, rs_name (f s) = rs_name s) ->
  find_step n (update_first n f l) = option_map f (find_step n l).
Proof.
  intros Hf. unfold find_step. induction l as [|s rest IH]; [done|].
  cbn [update_first]. destruct (String.eqb (rs_name s) n) eqn:Hs; cbn [List.find].
  - by rewrite Hf, Hs.
  - rewrite Hs. exact IH.
Qed.

Lemma update_first_at (n : string) (f : RunningScriptStep -> RunningScriptStep)
    (l : list RunningScriptStep) (i : nat) (s0 : RunningScriptStep) :
  NoDup (map rs_name l) -> l !! i = Some s0 -> rs_name s0 = n ->
  update_first n f l = <[i := f s0]> l /\ find_step n l = Some s0 /\
  (forall g, (forall s, rs_name (g s) = rs_name s) -> step_position n (update_first n g l) = Some i).
Proof.
  revert i. induction l as [|s rest IH]; intros i Hnd Hi Hn; [done|].
  cbn in Hnd. apply NoDup_cons in Hnd as [Hni Hnd].
  destruct i as [|i]; cbn in Hi.
  - injection Hi as ->. unfold find_step. cbn. rewrite Hn, String.eqb_refl. split; [done|].
    split; [done|]. intros g Hg. cbn. by rewrite Hg, Hn, String.eqb_refl.
  - destruct (String.eqb_spec (rs_name s) n) as [Heq|Hne].
    + exfalso. apply Hni. rewrite Heq, <- Hn. apply list_elem_of_In, in_map.
      apply list_elem_of_In. by apply list_elem_of_lookup_2 with i.
    + destruct (IH i Hnd Hi Hn) as (Hu & Hf & Hp).
      cbn. apply String.eqb_neq in Hne. rewrite Hne. unfold find_step in Hf |- *. cbn.
      rewrite Hne, Hu. split; [done|]. split; [exact Hf|].
      intros g Hg. cbn [update_first step_position]. rewrite ?Hne. by rewrite (Hp g Hg).
Qed.

Lemma finish_step_false_ok (io : WriteIO) (now : nat) (jr : JobResult) (fs : ResultStore)
    (n : string) (s0 : RunningScriptStep) :
  jr_current_step_name jr = Some n -> find_step n (jr_steps jr) = Some s0 ->
  finish_step io false now jr fs =
    (let jr2 := with_finished (Some now) (with_updated now (with_is_success false
                  (with_steps (update_first n (step_finish Failed now) (jr_steps jr)) jr))) in
     match job_result_save io jr2 fs with
     | Ok fs' => Ok (jr2, fs')
     | Err e => Err (e, jr2)
     end).
Proof.
  intros Hc Hf. unfold finish_step. rewrite Hc, Hf. reflexivity.
Qed.

Lemma finish_step_true_at (io : WriteIO) (now : nat) (jr : JobResult) (fs : ResultStore)
    (i : nat) (s0 : RunningScriptStep) :
  NoDup (map rs_name (jr_steps jr)) -> jr_steps jr !! i = Some s0 ->
  jr_current_step_name jr = Some (rs_name s0) ->
  finish_step io true now jr fs =
    (let jr1 := with_steps (<[i := step_finish Success now s0]> (jr_steps jr)) jr in
     let jr2 := match jr_steps jr !! S i with
                | Some next => with_updated now (with_current (Some (rs_name next)) jr1)
                | None => with_finished (Some now) (with_updated now jr1)
                end in
     match job_result_save io jr2 fs with
     | Ok fs' => Ok (jr2, fs')
     | Err e => Err (e, jr2)
     end).
Proof.
  intros Hnd Hi Hc.
  destruct (update_first_at (rs_name s0) (step_finish Success now) _ i s0 Hnd Hi eq_refl)
    as (Hu & Hf & Hp).
  unfold finish_step. rewrite Hc, Hf. cbn [negb].
  cbn [with_steps jr_steps]. rewrite (Hp (step_finish Success now) (fun _ => eq_refl)).
  rewrite length_update_first, Hu.
  assert (Hlt : i < length (jr_steps jr)) by (apply lookup_lt_is_Some_1; by eexists).
  cbv zeta.
  destruct (jr_steps jr !! S i) as [next|] eqn:Hn.
  - assert (Hlt' : i + 1 < length (jr_steps jr))
      by (rewrite Nat.add_1_r; apply lookup_lt_is_Some_1; by eexists).
    apply Nat.ltb_lt in Hlt'. rewrite Hlt'.
    rewrite list_lookup_insert_ne by lia. rewrite Nat.add_1_r, Hn. reflexivity.
  - assert (Hge : length (jr_steps jr) <= S i) by (apply lookup_ge_None_1; exact Hn).
    replace (i + 1 <? length (jr_steps jr)) with false by (symmetry; apply Nat.ltb_ge; lia).
    reflexivity.
Qed.

Lemma names_insert (l : list RunningScriptStep) (i : nat) (x y : RunningScriptStep) :
  l !! i = Some y -> rs_name x = rs_name y -> map rs_name (<[i := x]> l) = map rs_name l.
Proof.
  revert i. induction l as [|z l IH]; intros [|i] Hi Hn; try (cbn in Hi; discriminate).
  - cbn in Hi. injection Hi as ->. simpl. by rewrite Hn.
  - change (<[S i := x]> (z :: l)) with (z :: <[i := x]> l). cbn [map].
    by rewrite (IH i Hi Hn).
Qed.

End StepUpdate.

(** [finish_step(false)] on a job result whose current step exists marks
    that step [Failed] and finished at [now], and the job result failed and
    finished at [now], the current step staying the same.  Its only error
    is that of the save, which writes nothing for a dry run; on that error
    the job result is left so modified in memory. *)
Theorem finish_step_failure (io : WriteIO) (now : nat) (jr : JobResult) (fs : ResultStore)
    (s0 : RunningScriptStep) :
  get_current_step jr = Some s0 ->
  exists jr', finish_step io false now jr fs =
                match job_result_save io jr' fs with
                | Ok fs' => Ok (jr', fs')
                | Err e => Err (e, jr')
                end /\
    jr_is_success jr' = false /\ jr_finished_at jr' = Some now /\ jr_updated_at jr' = now /\
    jr_current_step_name jr' = jr_current_step_name jr /\
    get_current_step jr' = Some (step_finish Failed now s0) /\
    length (jr_steps jr') = length (jr_steps jr) /\
    jr_child_process_ids jr' = jr_child_process_ids jr /\
    jr_id jr' = jr_id jr /\ jr_dry_run jr' = jr_dry_run jr.
Proof.
  unfold get_current_step. destruct (jr_current_step_name jr) as [n|] eqn:Hc; [|discriminate].
  intros Hf. rewrite (finish_step_false_ok io now jr fs n s0 Hc Hf).
  eexists. split; [reflexivity|].
  cbn. split; [done|]. split; [done|]. split; [done|]. split; [done|].
  split.
  { rewrite Hc.
    change (find_step n (update_first n (step_finish Failed now) (jr_steps jr))
            = Some (step_finish Failed now s0)).
    rewrite find_step_update_first, Hf by done. done. }
  split; [apply length_update_first|done].
Qed.

Lemma finish_step_failure_witness :
  exists jr', finish_step (fun _ _ => Some "No such file or directory (os error 2)") false 7
    {| jr_id := "1"; jr_job_id := "j"; jr_is_success := true;
       jr_steps := [running_step_from {| step_name := "build"; step_values := [] |}];
       jr_current_step_name := Some "build"; jr_started_at := 0; jr_updated_at := 0;
       jr_finished_at := None; jr_dry_run := false; jr_child_process_ids := [] |} ∅
    = Err ("No such file or directory (os error 2)", jr') /\
    jr_is_success jr' = false /\ jr_finished_at jr' = Some 7 /\ jr_updated_at jr' = 7 /\
    jr_current_step_name jr' = Some "build" /\
    get_current_step jr' = Some (step_finish Failed 7
                                   (running_step_from {| step_name := "build"; step_values := [] |})) /\
    length (jr_steps jr') = 1 /\ jr_child_process_ids jr' = [] /\
    jr_id jr' = "1" /\ jr_dry_run jr' = false.
Proof.
  destruct (finish_step_failure (fun _ _ => Some "No such file or directory (os error 2)") 7
    {| jr_id := "1"; jr_job_id := "j"; jr_is_success := true;
       jr_steps := [running_step_from {| step_name := "build"; step_values := [] |}];
       jr_current_step_name := Some "build"; jr_started_at := 0; jr_updated_at := 0;
       jr_finished_at := None; jr_dry_run := false; jr_child_process_ids := [] |} ∅
    (running_step_from {| step_name := "build"; step_values := [] |}))
    as (jr' & H & Hrest); [reflexivity|].
  exists jr'. split; [|exact Hrest].
  rewrite H. destruct Hrest as (_ & _ & _ & _ & _ & _ & _ & _ & Hd).
  unfold job_result_save. rewrite Hd. reflexivity.
Defined.

(** With distinct step names, [finish_step(true)] on the current step [i]
    marks it [Success] and finished at [now]; the next step becomes the
    current one, or, after the last step, the job result is finished at
    [now].  Its success flag is left as it was.  Its only error is that of
    the save, which writes nothing for a dry run; on that error the job
    result is left so modified in memory. *)
Theorem finish_step_success (io : WriteIO) (now : nat) (jr : JobResult) (fs : ResultStore)
    (i : nat) (s0 : RunningScriptStep) :
  NoDup (map rs_name (jr_steps jr)) -> jr_steps jr !! i = Some s0 ->
  jr_current_step_name jr = Some (rs_name s0) ->
  exists jr', finish_step io true now jr fs =
                match job_result_save io jr' fs with
                | Ok fs' => Ok (jr', fs')
                | Err e => Err (e, jr')
                end /\
    jr_steps jr' = <[i := step_finish Success now s0]> (jr_steps jr) /\
    jr_updated_at jr' = now /\ jr_is_success jr' = jr_is_success jr /\
    jr_id jr' = jr_id jr /\ jr_dry_run jr' = jr_dry_run jr /\
    match jr_steps jr !! S i with
    | Some next => jr_current_step_name jr' = Some (rs_name next) /\
                   jr_finished_at jr' = jr_finished_at jr
    | None => jr_current_step_name jr' = Some (rs_name s0) /\ jr_finished_at jr' = Some now
    end.
Proof.
  intros Hnd Hi Hc. rewrite (finish_step_true_at io now jr fs i s0 Hnd Hi Hc). cbv zeta.
  destruct (jr_steps jr !! S i); (eexists; split; [reflexivity|]); cbn; done.
Qed.

Lemma finish_step_success_witness :
  exists jr', finish_step writes_succeed true 7
    {| jr_id := "1"; jr_job_id := "j"; jr_is_success := false;
       jr_steps := [running_step_from {| step_name := "build"; step_values := [] |};
                    running_step_from {| step_name := "test"; step_values := [] |}];
       jr_current_step_name := Some "build"; jr_started_at := 0; jr_updated_at := 0;
       jr_finished_at := None; jr_dry_run := false; jr_child_process_ids := [] |} ∅
    = Ok (jr', <["1" := jr']> ∅) /\
    jr_steps jr' = [step_finish Success 7 (running_step_from {| step_name := "build"; step_values := [] |});
                    running_step_from {| step_name := "test"; step_values := [] |}] /\
    jr_updated_at jr' = 7 /\ jr_is_success jr' = false /\
    jr_current_step_name jr' = Some "test" /\ jr_finished_at jr' = None.
Proof.
  destruct (finish_step_success writes_succeed 7
    {| jr_id := "1"; jr_job_id := "j"; jr_is_success := false;
       jr_steps := [running_step_from {| step_name := "build"; step_values := [] |};
                    running_step_from {| step_name := "test"; step_values := [] |}];
       jr_current_step_name := Some "build"; jr_started_at := 0; jr_updated_at := 0;
       jr_finished_at := None; jr_dry_run := false; jr_child_process_ids := [] |} ∅ 0
    (running_step_from {| step_name := "build"; step_values := [] |}))
    as (jr' & H1 & H2 & H3 & H4 & H5 & H6 & H7).
  - apply (bool_decide_unpack _). vm_compute. exact I.
  - reflexivity.
  - reflexivity.
  - exists jr'. split.
    + rewrite H1. unfold job_result_save. rewrite H6, H5. reflexivity.
    + split; [exact H2|]. split; [exact H3|]. split; [exact H4|]. exact H7.
Defined.

(** ** Process supervision *)

Section ProcessFacts.

Lemma next_level_parent (table : ProcessTable) (last : list nat) (p : nat) :
  p ∈ next_level table last -> exists q, (p, Some q) ∈ table /\ q ∈ last.
Proof.
  unfold next_level. intros H. apply list_elem_of_In, in_flat_map in H as (q & Hq & Hp).
  unfold children_of in Hp. apply in_map_iff in Hp as ([p' [q'|]] & Hp' & Hin);
    apply filter_In in Hin as [Hin Hb]; cbn in Hb, Hp'; [|discriminate].
  apply Nat.eqb_eq in Hb. subst. exists q. split; apply list_elem_of_In; done.
Qed.

Lemma process_bfs_parent (fuel : nat) (table : ProcessTable) (last : list nat) (l : list nat) :
  process_bfs fuel table last = Done l ->
  forall i p, l !! i = Some p ->
    exists q, (p, Some q) ∈ table /\ (q ∈ last \/ exists j, j < i /\ l !! j = Some q).
Proof.
  revert last l. induction fuel as [|fuel IH]; intros last l H i p Hi.
  - destruct last; cbn in H; [|discriminate]. injection H as <-. done.
  - destruct last as [|x xs]; cbn [process_bfs] in H.
    + injection H as <-. done.
    + destruct (process_bfs fuel table (next_level table (x :: xs))) as [rest|] eqn:Hr;
        [|discriminate].
      injection H as <-.
      change (children_of table x ++ next_level table xs) with (next_level table (x :: xs)) in *.
      destruct (decide (i < length (next_level table (x :: xs)))) as [Hlt|Hge].
      * rewrite lookup_app_l in Hi by exact Hlt.
        assert (Hp : p ∈ next_level table (x :: xs)) by (eapply list_elem_of_lookup_2; exact Hi).
        destruct (next_level_parent table (x :: xs) p Hp) as (q & Hq & Hin).
        exists q. split; [exact Hq|left; exact Hin].
      * rewrite lookup_app_r in Hi by lia.
        destruct (IH _ _ Hr _ _ Hi) as (q & Hq & [Hin|(j & Hj & Hjq)]).
        -- apply list_elem_of_lookup_1 in Hin as (j & Hjq).
           exists q. split; [exact Hq|]. right. exists j. split.
           ++ apply lookup_lt_Some in Hjq. lia.
           ++ rewrite lookup_app_l; [exact Hjq|]. by apply lookup_lt_Some in Hjq.
        -- exists q. split; [exact Hq|]. right.
           exists (length (next_level table (x :: xs)) + j). split; [lia|].
           rewrite lookup_app_r by lia.
           by replace (length (next_level table (x :: xs)) + j
                       - length (next_level table (x :: xs))) with j by lia.
Qed.

End ProcessFacts.

(** Every pid [get_process_recursive] returns has in the table a parent
    that is the given pid or comes earlier in the list.  So in the
    reversed list the observer kills, every process is killed before its
    parent. *)
Theorem process_tree_parent_first (fuel : nat) (table : ProcessTable) (root : nat)
    (l : list nat) :
  get_process_recursive fuel table root = Done l ->
  forall i p, l !! i = Some p ->
    exists q, (p, Some q) ∈ table /\ (q = root \/ exists j, j < i /\ l !! j = Some q).
Proof.
  intros H i p Hi.
  destruct (process_bfs_parent _ _ _ _ H i p Hi) as (q & Hq & [Hin|Hj]).
  - exists q. split; [exact Hq|]. left. by apply list_elem_of_singleton in Hin.
  - exists q. split; [exact Hq|by right].
Qed.

Lemma process_tree_parent_first_witness :
  exists q, ((12, Some q) ∈ [(1, None); (10, Some 1); (11, Some 10); (12, Some 11)]
             : Prop) /\
            (q = 10 \/ exists j, j < 1 /\ [11; 12] !! j = Some q).
Proof.
  apply (process_tree_parent_first 3 [(1, None); (10, Some 1); (11, Some 10); (12, Some 11)]
           10 [11; 12]); reflexivity.
Defined.


(** ** The cancellation observer *)

(** When the cancelled job's result is stored and not a dry run, the
    cleanup writes no other result.  When the writes of this result
    succeed, it is left stored with no pids and marked failed; if it had a
    current step, that step is now [Failed] and the result finished at
    [now], otherwise only the pids and the flag change. *)
Theorem cancel_cleanup_marks_failed (io : WriteIO) (fuel now : nat) (table : ProcessTable)
    (id : string) (fs : ResultStore) (jr : JobResult) (killed : list nat) (fs' : ResultStore) :
  fs !! id = Some jr -> jr_id jr = id -> jr_dry_run jr = false ->
  cancel_cleanup io fuel now table id fs = Done (killed, fs') ->
  (forall k, k <> id -> fs' !! k = fs !! k) /\
  ((forall j f, jr_id j = id -> io j f = None) ->
   exists jr', fs' = <[id := jr']> fs /\ jr_child_process_ids jr' = [] /\
     jr_is_success jr' = false /\ jr_id jr' = id /\
     (forall s0, get_current_step jr = Some s0 ->
        jr_finished_at jr' = Some now /\ get_current_step jr' = Some (step_finish Failed now s0)) /\
     (get_current_step jr = None -> jr' = with_is_success false (with_child_process_ids [] jr))).
Proof.
  intros Hjr Hid Hd H. unfold cancel_cleanup in H. rewrite Hjr in H.
  destruct (kill_sequence fuel table (jr_child_process_ids jr)) as [ks|] eqn:Hk;
    [|discriminate].
  destruct (get_current_step jr) as [s0|] eqn:Hcur.
  - unfold get_current_step in Hcur.
    destruct (jr_current_step_name jr) as [n|] eqn:Hc; [|discriminate].
    rewrite (finish_step_false_ok io now jr fs n s0 Hc Hcur) in H.
    set (jr2 := with_finished (Some now) (with_updated now (with_is_success false
                  (with_steps (update_first n (step_finish Failed now) (jr_steps jr)) jr)))) in H.
    set (jr3 := with_is_success false (with_child_process_ids [] jr2)).
    assert (Hd2 : jr_dry_run jr2 = false) by exact Hd.
    assert (Hid2 : jr_id jr2 = id) by exact Hid.
    assert (Hd3 : jr_dry_run jr3 = false) by exact Hd.
    assert (Hid3 : jr_id jr3 = id) by exact Hid.
    cbv zeta in H. unfold job_result_save in H. rewrite Hd2, Hid2 in H.
    destruct (io jr2 fs) as [e2|] eqn:Hio2; cbv beta iota in H;
      fold jr3 in H; rewrite Hd3, Hid3 in H;
      destruct (io jr3 _) as [e3|] eqn:Hio3; injection H as <- <-.
    + split; [done|]. intros Hio. rewrite (Hio jr2 fs Hid2) in Hio2. discriminate.
    + split; [intros k Hk'; by rewrite lookup_insert_ne by congruence|].
      intros Hio. rewrite (Hio jr2 fs Hid2) in Hio2. discriminate.
    + split; [intros k Hk'; by rewrite lookup_insert_ne by congruence|].
      intros Hio. rewrite (Hio jr3 _ Hid3) in Hio3. discriminate.
    + split; [intros k Hk'; by rewrite !lookup_insert_ne by congruence|].
      intros _. exists jr3. split; [by rewrite insert_insert_eq|].
      split; [done|]. split; [done|]. split; [exact Hid3|].
      split; [|discriminate].
      intros s1 Hs1. injection Hs1 as <-. split; [reflexivity|].
      unfold get_current_step. cbn. rewrite Hc.
      change (find_step n (update_first n (step_finish Failed now) (jr_steps jr))
              = Some (step_finish Failed now s0)).
      rewrite find_step_update_first, Hcur by done. done.
  - assert (Hf : exists e, finish_step io false now jr fs = Err (e, jr)).
    { unfold finish_step. unfold get_current_step in Hcur.
      destruct (jr_current_step_name jr); [|by eexists]. rewrite Hcur. by eexists. }
    destruct Hf as [e Hf]. rewrite Hf in H. cbv zeta iota in H. unfold job_result_save in H.
    cbn [jr_dry_run jr_id with_is_success with_child_process_ids] in H.
    rewrite Hd, Hid in H.
    destruct (io _ fs) as [e3|] eqn:Hio3; injection H as <- <-.
    + split; [done|]. intros Hio. rewrite Hio in Hio3; [discriminate|exact Hid].
    + split; [intros k Hk'; by rewrite lookup_insert_ne by congruence|].
      intros _. eexists. split; [reflexivity|].
      split; [done|]. split; [done|]. split; [exact Hid|].
      split; [discriminate|done].
Qed.

Lemma cancel_cleanup_marks_failed_witness :
  exists jr', cancel_cleanup writes_succeed 3 7 [(1, None); (10, Some 1); (11, Some 10)] "5"
      (<["5" := {| jr_id := "5"; jr_job_id := "j"; jr_is_success := false;
                   jr_steps := [running_step_from {| step_name := "build"; step_values := [] |}];
                   jr_current_step_name := Some "build"; jr_started_at := 0;
                   jr_updated_at := 0; jr_finished_at := None; jr_dry_run := false;
                   jr_child_process_ids := [10] |}]> ∅) = Done ([11], <["5" := jr']> ∅) /\
    jr_child_process_ids jr' = [] /\ jr_is_success jr' = false /\ jr_id jr' = "5".
Proof.
  set (jr := {| jr_id := "5"; jr_job_id := "j"; jr_is_success := false;
                jr_steps := [running_step_from {| step_name := "build"; step_values := [] |}];
                jr_current_step_name := Some "build"; jr_started_at := 0;
                jr_updated_at := 0; jr_finished_at := None; jr_dry_run := false;
                jr_child_process_ids := [10] |}).
  destruct (proj2 (cancel_cleanup_marks_failed writes_succeed 3 7
              [(1, None); (10, Some 1); (11, Some 10)] "5"
              (<["5" := jr]> ∅) jr [11]
              (<["5" := with_is_success false (with_child_process_ids []
                  (with_finished (Some 7) (with_updated 7 (with_is_success false
                    (with_steps (update_first "build" (step_finish Failed 7) (jr_steps jr)) jr)))))]> ∅)
              ltac:(by rewrite lookup_insert_eq) eq_refl eq_refl ltac:(unfold jr; vm_compute; reflexivity))
              (fun _ _ _ => eq_refl))
    as (jr' & Hfs & H1 & H2 & H3 & _).
  exists jr'. split; [|done].
  rewrite <- (insert_insert_eq (∅ : ResultStore) "5" jr' jr), <- Hfs.
  vm_compute. reflexivity.
Defined.

(** ** Scripts without steps *)

(** A job result with no current step that is not finished makes the
    engine stop at once with ["No current step"], writing nothing.  So a
    script without steps fails [JobExecutor::validate] with that error, and
    also [Job::validate] once its parameters are complete. *)
Theorem validate_without_steps (io : WriteIO) (now : nat)
    (exec_value : ScriptType -> JobResult -> Params -> ResultStore ->
                  result unit string * Params * JobResult * ResultStore)
    (ids : IdState) (job : Job) (script : Script) (scripts : ScriptStore)
    (parameters : Params) (fs : ResultStore) :
  script_steps script = [] ->
  (forall fuel jr p fs0, jr_current_step_name jr = None -> jr_finished_at jr = None ->
     execute_job_result_internal io now exec_value (S fuel) jr p fs0
       = Done (Err "No current step", jr, p, fs0)) /\
  validate io now exec_value ids job script scripts parameters fs
    = Some (Done (Err "No current step", fs)) /\
  (validate_parameters job (Some script) scripts = Ok tt ->
   job_validate io now exec_value ids job (Some script) scripts parameters fs
    = Some (Done (Err "No current step", fs))).
Proof.
  intros Hs.
  assert (Heng : forall fuel jr p fs0, jr_current_step_name jr = None ->
            jr_finished_at jr = None ->
            execute_job_result_internal io now exec_value (S fuel) jr p fs0
              = Done (Err "No current step", jr, p, fs0)).
  { intros fuel jr p fs0 Hc Hf. unfold execute_job_result_internal. cbn [engine_loop].
    rewrite Hf. unfold start_step, get_current_step. rewrite Hc. reflexivity. }
  destruct (merge_fold_keys job parameters (script_parameters script) ∅) as (m & Hm & _).
  assert (Hm' : merged_parameters job (Some script) scripts parameters = Ok m) by exact Hm.
  assert (Ht : job_result_try_from ids job script true now =
               Some (Ok (job_result_new "dry_run" (job_id job) [] true now, ids)))
    by (unfold job_result_try_from; rewrite Hs; reflexivity).
  split; [exact Heng|]. split.
  - unfold validate. rewrite Hm', Ht, Hs. cbn [length].
    rewrite Heng by reflexivity. reflexivity.
  - intros Hv. unfold job_validate. rewrite Hv. cbn [get_script]. rewrite Hm', Ht, Hs.
    cbn [length]. rewrite Heng by reflexivity. reflexivity.
Qed.

Lemma validate_without_steps_witness :
  validate writes_succeed 0 sample_exec_value {| ids_file := ""; result_files := ∅ |}
    {| job_id := "j"; job_name := "j"; job_parameters := []; job_triggers := [Manual];
       job_script_id := "empty"; job_read_only := false |}
    {| script_id := "empty"; script_name := "empty"; script_parameters := [];
       script_steps := [] |} ∅ ∅ ∅
    = Some (Done (Err "No current step", ∅)).
Proof.
  refine (proj1 (proj2 (validate_without_steps writes_succeed 0 sample_exec_value {| ids_file := ""; result_files := ∅ |}
    {| job_id := "j"; job_name := "j"; job_parameters := []; job_triggers := [Manual];
       job_script_id := "empty"; job_read_only := false |}
    {| script_id := "empty"; script_name := "empty"; script_parameters := [];
       script_steps := [] |} ∅ ∅ ∅ _))).
  reflexivity.
Defined.

(** ** The engine outside dry runs *)

Section EngineProgress.

Variable io : WriteIO.
Variable now : nat.
Variable exec_value : ScriptType -> JobResult -> Params -> ResultStore ->
                      result unit string * Params * JobResult * ResultStore.
Hypothesis Hkeep : exec_keeps_progress exec_value.

Lemma run_values_keeps (vals : list ScriptType) (jr : JobResult) (p : Params) (fs : ResultStore) :
  let '(_, _, jr', _) := run_values exec_value vals jr p fs in
  jr_id jr' = jr_id jr /\ jr_steps jr' = jr_steps jr /\
  jr_current_step_name jr' = jr_current_step_name jr /\
  jr_finished_at jr' = jr_finished_at jr /\ jr_dry_run jr' = jr_dry_run jr.
Proof.
  revert jr p fs. induction vals as [|v rest IH]; intros jr p fs; cbn [run_values]; [tauto|].
  pose proof (Hkeep v jr p fs) as H.
  destruct (exec_value v jr p fs) as [[[r p'] jr'] fs']. destruct r as [u|e]; [|exact H].
  pose proof (IH jr' p' fs') as H'.
  destruct (run_values exec_value rest jr' p' fs') as [[[r2 p2] jr2] fs2].
  destruct H as (? & ? & ? & ? & ?), H' as (? & ? & ? & ? & ?).
  repeat split; congruence.
Qed.

Lemma engine_loop_progress (k : nat) :
  forall fuel jr p fs i s,
  length (jr_steps jr) = i + S k -> k < fuel ->
  NoDup (map rs_name (jr_steps jr)) -> jr_steps jr !! i = Some s ->
  jr_current_step_name jr = Some (rs_name s) -> jr_finished_at jr = None ->
  jr_dry_run jr = false ->
  (forall j t, j < i -> jr_steps jr !! j = Some t -> rs_status t = Success) ->
  (forall j f, jr_id j = jr_id jr -> io j f = None) ->
  exists b jr' p' fs', engine_loop io now exec_value fuel jr p fs = Done (Ok b, jr', p', fs') /\
    jr_finished_at jr' = Some now /\ jr_id jr' = jr_id jr /\ jr_dry_run jr' = false /\
    (b = true <-> Forall (fun t => rs_status t = Success) (jr_steps jr')).
Proof.
  induction k as [|k IH]; intros fuel jr p fs i s Hlen Hfuel Hnd Hi Hc Hfin Hd Hpre Hio;
    (destruct fuel as [|fuel]; [lia|]); cbn [engine_loop]; rewrite Hfin;
    destruct (update_first_at (rs_name s) (step_start now) _ i s Hnd Hi eq_refl)
      as (Hu1 & Hf1 & _);
    unfold start_step at 1, get_current_step at 1; rewrite Hc, Hf1, Hu1;
    unfold job_result_save at 1; cbn [jr_dry_run with_steps]; rewrite Hd;
    rewrite Hio by reflexivity; cbv beta iota;
    (assert (Hlt : i < length (jr_steps jr)) by lia);
    set (s1 := step_start now s);
    set (jr1 := with_steps (<[i := s1]> (jr_steps jr)) jr);
    (assert (Hi1 : jr_steps jr1 !! i = Some s1) by (cbn; by apply list_lookup_insert_eq));
    (assert (Hnd1 : NoDup (map rs_name (jr_steps jr1)))
       by (cbn; rewrite (names_insert _ _ _ s Hi) by done; exact Hnd));
    (assert (Hc1 : jr_current_step_name jr1 = Some (rs_name s1)) by exact Hc);
    destruct (update_first_at (rs_name s1) (step_finish Success now) _ i s1 Hnd1 Hi1 eq_refl)
      as (_ & Hf1' & _);
    unfold get_current_step at 1; rewrite Hc1, Hf1'; cbv beta iota zeta;
    pose proof (run_values_keeps (rs_values s1) jr1 p (<[jr_id jr1 := jr1]> fs)) as Hrun;
    destruct (run_values exec_value (rs_values s1) jr1 p (<[jr_id jr1 := jr1]> fs))
      as [[[r p2] jr2] fs2];
    destruct Hrun as (Hid2 & Hs2 & Hc2 & Hfin2 & Hd2);
    (assert (Hfs2 : find_step (rs_name s1) (jr_steps jr2) = Some s1) by (rewrite Hs2; exact Hf1'));
    (assert (Hcur2 : jr_current_step_name jr2 = Some (rs_name s1)) by (rewrite Hc2; exact Hc1));
    (destruct r as [u|e];
     [| (* an operation failed *)
       rewrite (finish_step_false_ok io now jr2 fs2 _ s1 Hcur2 Hfs2); cbv zeta;
       unfold job_result_save at 1;
       cbn [jr_dry_run with_finished with_updated with_is_success with_steps];
       rewrite Hd2; cbn [jr_dry_run jr1 with_steps]; rewrite Hd;
       rewrite Hio by (cbn; rewrite Hid2; reflexivity); cbv beta iota;
       cbn [jr_dry_run with_finished with_updated with_is_success with_steps];
       rewrite Hd2; cbn [jr_dry_run jr1 with_steps]; rewrite Hd;
       do 4 eexists; split; [reflexivity|];
       split; [reflexivity|]; split; [cbn; rewrite Hid2; reflexivity|];
       split; [cbn; rewrite Hd2; exact Hd|];
       split; [discriminate|];
       intros HF; rewrite List.Forall_forall in HF;
       assert (Hx : find_step (rs_name s1)
                      (update_first (rs_name s1) (step_finish Failed now) (jr_steps jr2))
                    = Some (step_finish Failed now s1))
         by (rewrite find_step_update_first, Hfs2 by done; done);
       apply find_some in Hx as [Hx _];
       specialize (HF _ Hx); discriminate]).
  - (* the last step succeeded *)
    assert (Hi2 : jr_steps jr2 !! i = Some s1) by (rewrite Hs2; exact Hi1).
    assert (Hnd2 : NoDup (map rs_name (jr_steps jr2))) by (rewrite Hs2; exact Hnd1).
    rewrite (finish_step_true_at io now jr2 fs2 i s1 Hnd2 Hi2 Hcur2). cbv zeta.
    assert (Hnone : jr_steps jr2 !! S i = None)
      by (rewrite Hs2; cbn; rewrite list_lookup_insert_ne by lia;
          apply lookup_ge_None_2; lia).
    rewrite Hnone. cbv beta iota.
    unfold job_result_save at 1.
    cbn [jr_dry_run with_finished with_updated with_steps]. rewrite Hd2.
    cbn [jr1 with_steps jr_dry_run]. rewrite Hd.
    rewrite Hio by (cbn; rewrite Hid2; reflexivity). cbv beta iota.
    destruct fuel as [|fuel]; cbn [engine_loop with_finished with_updated with_steps jr_finished_at];
    (do 4 eexists; split; [reflexivity|]);
    (split; [reflexivity|]); (split; [cbn; rewrite Hid2; reflexivity|]);
    (split; [cbn; rewrite Hd2; exact Hd|]);
    (split; [intros _|done]);
    cbn; apply Forall_lookup; intros j t Hj;
    (destruct (decide (j = i)) as [->|Hne];
     [rewrite list_lookup_insert_eq in Hj by (rewrite Hs2; cbn; rewrite length_insert; lia);
      injection Hj as <-; reflexivity
     |rewrite list_lookup_insert_ne in Hj by congruence;
      rewrite Hs2 in Hj; cbn in Hj; rewrite list_lookup_insert_ne in Hj by congruence;
      assert (j < i) by (apply lookup_lt_Some in Hj; lia);
      by apply (Hpre j t)]).
  - (* a step succeeded and another follows *)
    assert (Hi2 : jr_steps jr2 !! i = Some s1) by (rewrite Hs2; exact Hi1).
    assert (Hnd2 : NoDup (map rs_name (jr_steps jr2))) by (rewrite Hs2; exact Hnd1).
    rewrite (finish_step_true_at io now jr2 fs2 i s1 Hnd2 Hi2 Hcur2). cbv zeta.
    assert (Hsome : S i < length (jr_steps jr)) by lia.
    destruct (lookup_lt_is_Some_2 _ _ Hsome) as [next Hnext].
    assert (Hn2 : jr_steps jr2 !! S i = Some next)
      by (rewrite Hs2; cbn; rewrite list_lookup_insert_ne by lia; exact Hnext).
    rewrite Hn2. cbv beta iota.
    unfold job_result_save at 1.
    cbn [jr_dry_run with_current with_updated with_steps]. rewrite Hd2.
    cbn [jr1 with_steps jr_dry_run]. rewrite Hd.
    rewrite Hio by (cbn; rewrite Hid2; reflexivity). cbv beta iota.
    set (jr3 := with_updated now (with_current (Some (rs_name next))
                  (with_steps (<[i := step_finish Success now s1]> (jr_steps jr2)) jr2))).
    assert (Hs3 : jr_steps jr3 = <[i := step_finish Success now s1]> (<[i := s1]> (jr_steps jr)))
      by (cbn; rewrite Hs2; reflexivity).
    destruct (IH fuel jr3 p2 (<[jr_id jr2 := jr3]> fs2) (S i) next)
      as (b & jr' & p' & fs' & Hloop & Hfin' & Hid' & Hd' & Hb).
    + rewrite Hs3, !length_insert. lia.
    + lia.
    + rewrite Hs3, (names_insert _ _ _ s1)
        by first [reflexivity | apply list_lookup_insert_eq; lia].
      rewrite (names_insert _ _ _ s Hi) by done. exact Hnd.
    + rewrite Hs3, !list_lookup_insert_ne by lia. exact Hnext.
    + reflexivity.
    + cbn. rewrite Hfin2. exact Hfin.
    + cbn. rewrite Hd2. exact Hd.
    + intros j t Hj Ht. rewrite Hs3 in Ht.
      destruct (decide (j = i)) as [->|Hne].
      * rewrite list_lookup_insert_eq in Ht by (rewrite length_insert; lia).
        injection Ht as <-. reflexivity.
      * rewrite !list_lookup_insert_ne in Ht by congruence.
        apply (Hpre j t); [lia|exact Ht].
    + intros j f Hj. apply Hio. rewrite Hj. cbn. rewrite Hid2. reflexivity.
    + exists b, jr', p', fs'. split; [exact Hloop|].
      split; [exact Hfin'|]. split; [rewrite Hid'; cbn; rewrite Hid2; reflexivity|].
      split; [exact Hd'|exact Hb].
Qed.

End EngineProgress.

(** Outside dry runs, an error of an operation is not returned: for a job
    result freshly started on its first step, with distinct step names,
    operations that leave its progress alone, and writes of this job result
    to the results directory that succeed, [execute_job_result_internal]
    returns [Ok], and the job result it last writes is finished and
    successful exactly when every step succeeded. *)
Theorem execute_non_dry_swallows_errors (io : WriteIO) (now : nat)
    (exec_value : ScriptType -> JobResult -> Params -> ResultStore ->
                  result unit string * Params * JobResult * ResultStore)
    (fuel : nat) (jr : JobResult) (p : Params) (fs : ResultStore) (s : RunningScriptStep)
    (rest : list RunningScriptStep) :
  exec_keeps_progress exec_value ->
  jr_steps jr = s :: rest -> NoDup (map rs_name (jr_steps jr)) ->
  jr_current_step_name jr = Some (rs_name s) -> jr_finished_at jr = None ->
  jr_dry_run jr = false -> length (jr_steps jr) <= fuel ->
  (forall j f, jr_id j = jr_id jr -> io j f = None) ->
  exists jr' p' fs',
    execute_job_result_internal io now exec_value fuel jr p fs = Done (Ok tt, jr', p', fs') /\
    fs' !! jr_id jr = Some jr' /\ jr_finished_at jr' = Some now /\
    (jr_is_success jr' = true <-> Forall (fun t => rs_status t = Success) (jr_steps jr')).
Proof.
  intros Hkeep Hs Hnd Hc Hfin Hd Hfuel Hio.
  assert (Hlen : length (jr_steps jr) = 0 + S (length rest)) by (rewrite Hs; reflexivity).
  assert (Hk : length rest < fuel) by lia.
  assert (H0 : jr_steps jr !! 0 = Some s) by (rewrite Hs; reflexivity).
  assert (Hpre : forall j t, j < 0 -> jr_steps jr !! j = Some t -> rs_status t = Success) by lia.
  destruct (engine_loop_progress io now exec_value Hkeep (length rest) fuel jr p fs 0 s
              Hlen Hk Hnd H0 Hc Hfin Hd Hpre Hio)
    as (b & jr' & p' & fs' & Hloop & Hfin' & Hid' & Hd' & Hb).
  unfold execute_job_result_internal. rewrite Hloop.
  unfold job_result_save. cbn [jr_dry_run with_is_success]. rewrite Hd'.
  rewrite Hio by (cbn; exact Hid'). cbv beta iota.
  eexists _, _, _. split; [reflexivity|].
  split; [cbn; rewrite Hid'; apply lookup_insert_eq|].
  split; [exact Hfin'|]. exact Hb.
Qed.

Lemma execute_non_dry_swallows_errors_witness :
  exists jr' p' fs',
    execute_job_result_internal writes_succeed 7 sample_exec_value 2
      {| jr_id := "1"; jr_job_id := "j"; jr_is_success := false;
         jr_steps := [running_step_from {| step_name := "build"; step_values := [Bash "false"] |};
                      running_step_from {| step_name := "test"; step_values := [] |}];
         jr_current_step_name := Some "build"; jr_started_at := 0; jr_updated_at := 0;
         jr_finished_at := None; jr_dry_run := false; jr_child_process_ids := [] |} ∅ ∅
      = Done (Ok tt, jr', p', fs') /\
    fs' !! "1" = Some jr' /\ jr_finished_at jr' = Some 7 /\
    (jr_is_success jr' = true <-> Forall (fun t => rs_status t = Success) (jr_steps jr')).
Proof.
  apply (execute_non_dry_swallows_errors writes_succeed 7 sample_exec_value 2
      {| jr_id := "1"; jr_job_id := "j"; jr_is_success := false;
         jr_steps := [running_step_from {| step_name := "build"; step_values := [Bash "false"] |};
                      running_step_from {| step_name := "test"; step_values := [] |}];
         jr_current_step_name := Some "build"; jr_started_at := 0; jr_updated_at := 0;
         jr_finished_at := None; jr_dry_run := false; jr_child_process_ids := [] |} ∅ ∅
      (running_step_from {| step_name := "build"; step_values := [Bash "false"] |})
      [running_step_from {| step_name := "test"; step_values := [] |}]).
  - intros v jr p fs. unfold sample_exec_value. cbn. tauto.
  - reflexivity.
  - apply (bool_decide_unpack _). vm_compute. exact I.
  - reflexivity.
  - reflexivity.
  - reflexivity.
  - cbn. lia.
  - reflexivity.
Defined.
